(** * Terminal portfolio: command interpreter, recall state machine,
      front-matter parser and blog registry

    A shallow embedding of [src/components/home.tsx] and
    [src/components/blog.tsx], followed by the properties proved of it.

    Strings.  A JavaScript string is a sequence of UTF-16 code units.  The
    embedding covers the strings whose code units are below 256, i.e. the
    Latin-1 range, with one [ascii] per code unit.  On that range
    [String.prototype.toLowerCase], [trim] and the regular-expression class
    [\s] are given by the tables below. *)

From Stdlib Require Import ZArith QArith Lia List Bool Ascii Permutation Sorted.
From stdpp Require Import gmap strings.
Import ListNotations.

Local Open Scope Z_scope.

(** stdpp keeps string concatenation folded; here it computes on literals. *)
#[local] Arguments String.append !s1 s2 : simpl nomatch.

(* ===================================================================== *)
(** * JavaScript string primitives used by the two components            *)
(* ===================================================================== *)

Module JS.

Definition LF : ascii := Ascii.ascii_of_nat 10.
Definition DQUOTE : ascii := Ascii.ascii_of_nat 34.
Definition SQUOTE : ascii := Ascii.ascii_of_nat 39.

(** One-character string. *)
Definition chr (c : ascii) : string := String c EmptyString.

(** WhiteSpace and LineTerminator code points below 256: TAB, LF, VT, FF,
    CR, SP and NBSP.  [trim] strips exactly these; [\s] matches exactly
    these. *)
Definition isWhiteSpace (c : ascii) : bool :=
  match Ascii.N_of_ascii c with
  | 9 | 10 | 11 | 12 | 13 | 32 | 160 => true
  | _ => false
  end%N.

(** Lower-case mapping of one Latin-1 code unit: A-Z and the accented
    capitals U+00C0..U+00DE (U+00D7, the multiplication sign, excepted)
    move up by 32; everything else is its own lower case. *)
Definition lowerChar (c : ascii) : ascii :=
  let n := Ascii.N_of_ascii c in
  if ((65 <=? n) && (n <=? 90)
      || (192 <=? n) && (n <=? 222) && negb (n =? 215))%N
  then Ascii.ascii_of_N (n + 32) else c.

Fixpoint toLowerCase (s : string) : string :=
  match s with
  | EmptyString => EmptyString
  | String c r => String (lowerChar c) (toLowerCase r)
  end.

Fixpoint trimStart (s : string) : string :=
  match s with
  | EmptyString => EmptyString
  | String c r => if isWhiteSpace c then trimStart r else s
  end.

Fixpoint trimEnd (s : string) : string :=
  match s with
  | EmptyString => EmptyString
  | String c r =>
      match trimEnd r with
      | EmptyString => if isWhiteSpace c then EmptyString else chr c
      | r' => String c r'
      end
  end.

Definition trim (s : string) : string := trimEnd (trimStart s).

(** [s.startsWith(p)] *)
Fixpoint startsWith (s p : string) : bool :=
  match p, s with
  | EmptyString, _ => true
  | String _ _, EmptyString => false
  | String a p', String b s' => Ascii.eqb a b && startsWith s' p'
  end.

(** [s.endsWith(p)]: [p] is [s] or a suffix of the tail of [s]. *)
Fixpoint endsWith (s p : string) : bool :=
  String.eqb s p
  || match s with
     | EmptyString => false
     | String _ r => endsWith r p
     end.

(** [s.indexOf(c)] for a one-character needle; [-1] when absent. *)
Fixpoint indexOf (s : string) (c : ascii) : Z :=
  match s with
  | EmptyString => -1
  | String b r =>
      if Ascii.eqb b c then 0
      else let i := indexOf r c in if i <? 0 then -1 else i + 1
  end.

Fixpoint drop (n : nat) (s : string) : string :=
  match n, s with
  | O, _ => s
  | S _, EmptyString => EmptyString
  | S n', String _ r => drop n' r
  end.

Fixpoint take (n : nat) (s : string) : string :=
  match n, s with
  | O, _ => EmptyString
  | S _, EmptyString => EmptyString
  | S n', String c r => String c (take n' r)
  end.

(** [s.slice(start, end)]; [None] stands for an omitted [end].  Negative
    positions count from the end, and both are clamped to [0, length]. *)
Definition slice (s : string) (start : Z) (end_ : option Z) : string :=
  let len := Z.of_nat (String.length s) in
  let clamp (i : Z) := if i <? 0 then Z.max (len + i) 0 else Z.min i len in
  let from := clamp start in
  let to := match end_ with Some e => clamp e | None => len end in
  take (Z.to_nat (Z.max (to - from) 0)) (drop (Z.to_nat from) s).

(** [s.split(sep)] for a one-character separator: never the empty list. *)
Fixpoint split (sep : ascii) (s : string) : list string :=
  match s with
  | EmptyString => [EmptyString]
  | String c r =>
      if Ascii.eqb c sep then EmptyString :: split sep r
      else match split sep r with
           | [] => [chr c]
           | w :: ws => String c w :: ws
           end
  end.

(** [items.join(sep)] *)
Fixpoint join (sep : string) (items : list string) : string :=
  match items with
  | [] => EmptyString
  | [x] => x
  | x :: rest => x +:+ sep +:+ join sep rest
  end.

Definition isQuote (c : ascii) : bool :=
  Ascii.eqb c DQUOTE || Ascii.eqb c SQUOTE.

(** Drops the last code unit when it is a quote: the second alternative
    of the pattern below, a quote followed by the end of input. *)
Fixpoint dropTrailingQuote (s : string) : string :=
  match s with
  | EmptyString => EmptyString
  | String c EmptyString => if isQuote c then EmptyString else s
  | String c r => String c (dropTrailingQuote r)
  end.

(** [s.replace(re, empty)] for the global pattern [re] that matches a
    single or double quote at the start of input, or one at the end of
    input.  The global scan finds a quote at index 0 first, resumes after
    it, and then finds a quote that is the last code unit of what
    remains. *)
Definition replaceQuoteEnds (s : string) : string :=
  match s with
  | String c r => if isQuote c then dropTrailingQuote r else dropTrailingQuote s
  | EmptyString => EmptyString
  end.

(** [array[i]] on a JavaScript array: [undefined] (here [None]) when [i]
    is not an index of the array. *)
Definition at_index {A} (l : list A) (i : Z) : option A :=
  if i <? 0 then None else nth_error l (Z.to_nat i).

End JS.

(* ===================================================================== *)
(** * The terminal session: [src/components/home.tsx]                     *)
(* ===================================================================== *)

Module Terminal.

(** [TerminalLine['type']] *)
Inductive LineType := command | output | error | accent | help.

(** [interface TerminalLine]; the optional [timestamp] is never
    assigned anywhere in the component and is left out. *)
Record TerminalLine := {
  id : Q;
  type : LineType;
  content : string
}.

Inductive Page := home | projects | blog.

(** The five [useState] cells of [HomePage].  [currentInput] is declared
    a string, but [setCurrentInput(commandHistory[newIndex])] stores
    [undefined] when the index is out of range, hence the [option]. *)
Record Session := {
  currentInput : option string;
  history : list TerminalLine;
  currentPage : Page;
  commandHistory : list string;
  historyIndex : Z
}.

Definition validCommands : list string :=
  ["help"; "whoami"; "contact"; "projects"; "blog"; "home"; "clear";
   "ls"; "pwd"].

Definition isValidCommand (input : string) : bool :=
  existsb (String.eqb (JS.trim (JS.toLowerCase input))) validCommands.

(** [if (!input) return []]: both [undefined] and the empty string are
    falsy. *)
Definition getMatchingCommands (input : option string) : list string :=
  match input with
  | None | Some EmptyString => []
  | Some input =>
      List.filter
        (fun cmd =>
           JS.startsWith (JS.toLowerCase cmd)
                         (JS.trim (JS.toLowerCase input)))
        validCommands
  end.

Definition hasPartialMatch (input : option string) : bool :=
  (0 <? length (getMatchingCommands input))%nat.

(** State after the first render: the [useState] defaults. *)
Definition initial : Session :=
  {| currentInput := Some ""; history := []; currentPage := home;
     commandHistory := []; historyIndex := -1 |}.

Definition welcomeLines : list TerminalLine :=
  [ {| id := 1; type := output;
       content := "Welcome to my terminal portfolio. (Version 1.0.0)" |};
    {| id := 2; type := output; content := "----" |};
    {| id := 3; type := output; content := "" |};
    {| id := 4; type := output;
       content := "This project's source code can be seen in this project's " |};
    {| id := 5; type := accent;
       content := "GitHub repo: https://github.com/yagizklc/yagizklc.github.io" |};
    {| id := 6; type := output; content := "" |};
    {| id := 7; type := output; content := "----" |};
    {| id := 8; type := output; content := "" |};
    {| id := 9; type := output;
       content := "For a list of available commands, type 'help'." |} ].

(** State once the mount effect has run [setHistory(welcomeLines)]. *)
Definition mounted : Session :=
  {| currentInput := Some ""; history := welcomeLines; currentPage := home;
     commandHistory := []; historyIndex := -1 |}.

Definition prompt : string := "visitor@yagiz-terminal:~$".

(** ** State updates queued by an event handler

    A handler reads the cells as they were when it was rendered and
    queues updates, which React applies in the order they were queued.
    An [Update] threads the session together with the number of line
    identifiers drawn so far. *)
Definition Update : Type := nat * Session -> nat * Session.

Definition andThen (u v : Update) : Update := fun x => v (u x).
Declare Scope update_scope.
Notation "u ;; v" := (andThen u v)
  (at level 100, v at level 200, right associativity) : update_scope.
Local Open Scope update_scope.

Definition skip : Update := fun x => x.

Definition run (u : Update) (s : Session) : Session := snd (u (0%nat, s)).

Definition setCurrentInput (v : option string) : Update :=
  fun '(k, s) =>
    (k, {| currentInput := v; history := history s;
           currentPage := currentPage s;
           commandHistory := commandHistory s;
           historyIndex := historyIndex s |}).

Definition setHistory (f : list TerminalLine -> list TerminalLine) : Update :=
  fun '(k, s) =>
    (k, {| currentInput := currentInput s; history := f (history s);
           currentPage := currentPage s;
           commandHistory := commandHistory s;
           historyIndex := historyIndex s |}).

Definition setCurrentPage (p : Page) : Update :=
  fun '(k, s) =>
    (k, {| currentInput := currentInput s; history := history s;
           currentPage := p;
           commandHistory := commandHistory s;
           historyIndex := historyIndex s |}).

Definition setCommandHistory (f : list string -> list string) : Update :=
  fun '(k, s) =>
    (k, {| currentInput := currentInput s; history := history s;
           currentPage := currentPage s;
           commandHistory := f (commandHistory s);
           historyIndex := historyIndex s |}).

Definition setHistoryIndex (i : Z) : Update :=
  fun '(k, s) =>
    (k, {| currentInput := currentInput s; history := history s;
           currentPage := currentPage s;
           commandHistory := commandHistory s;
           historyIndex := i |}).

(** [e.key], as far as [handleKeyDown] tells keys apart. *)
Inductive Key := Enter | Tab | ArrowUp | ArrowDown | OtherKey.

Section Handlers.

(** [now k] is the value of [Date.now() + Math.random()] at the
    [k]-th call of [addToHistory] within one handler run. *)
Variable now : nat -> Q.

Definition addToHistory (ty : LineType) (text : string) : Update :=
  fun '(k, s) =>
    setHistory
      (fun prev => prev ++ [ {| id := now k; type := ty; content := text |} ])
      (S k, s).

Definition executeCommand (command_ : string) : Update :=
  let cmd := JS.trim (JS.toLowerCase command_) in
  (* Add command to history *)
  addToHistory command (prompt +:+ " " +:+ command_) ;;
  (* Add to command history *)
  setCommandHistory (fun prev => prev ++ [command_]) ;;
  setHistoryIndex (-1) ;;
  if String.eqb cmd "help" then
    addToHistory output "Available commands:" ;;
    addToHistory help "  whoami     - Display personal information" ;;
    addToHistory help "  projects   - View my projects" ;;
    addToHistory help "  blog       - Read my blog posts" ;;
    addToHistory help "  contact    - Get contact information" ;;
    addToHistory help "  clear      - Clear terminal" ;;
    addToHistory help "  home       - Return to home page"
  else if String.eqb cmd "whoami" then
    addToHistory output "Yagiz Kilicarslan" ;;
    addToHistory output "Software Engineer & Backend Lead at ArealAI" ;;
    addToHistory output "Passionate about scalable systems and clean code"
  else if String.eqb cmd "contact" then
    (* the four accent lines open with a pictograph outside Latin-1;
       it is kept as its UTF-8 bytes and nothing inspects it *)
    addToHistory output "Contact Information:" ;;
    addToHistory accent "📧  yagiz.kilicarslan1@gmail.com" ;;
    addToHistory output "" ;;
    addToHistory output "Find me online:" ;;
    addToHistory accent "🐙  https://github.com/yagizklc" ;;
    addToHistory accent "💼  https://linkedin.com/in/yagizkilicarslan" ;;
    addToHistory accent "🐦  https://twitter.com/yagizklc" ;;
    addToHistory output "" ;;
    addToHistory output "Feel free to reach out for collaborations!"
  else if String.eqb cmd "projects" then
    addToHistory output "Loading projects..." ;;
    setCurrentPage projects
  else if String.eqb cmd "blog" then
    addToHistory output "Loading blog posts..." ;;
    setCurrentPage blog
  else if String.eqb cmd "home" then
    addToHistory output "Returning to home..." ;;
    setCurrentPage home
  else if String.eqb cmd "clear" then
    setHistory (fun _ => [])
  else if String.eqb cmd "ls" then
    addToHistory output "home/     projects/     blog/     contact.txt"
  else if String.eqb cmd "pwd" then
    addToHistory output "/home/yagiz/personal-website"
  else if String.eqb cmd "" then
    (* Empty command, just add a new line *)
    skip
  else
    addToHistory error
      ("Command not found: " +:+ command_
       +:+ ". Type 'help' for available commands.").

(** [handleKeyDown]; [None] is the [TypeError] that
    [executeCommand(undefined)] raises at [command.toLowerCase()],
    before any update is queued. *)
Definition handleKeyDown (key : Key) (s : Session) : option Session :=
  let len := Z.of_nat (length (commandHistory s)) in
  match key with
  | Enter =>
      match currentInput s with
      | Some input =>
          Some (run (executeCommand input ;; setCurrentInput (Some "")) s)
      | None => None
      end
  | Tab =>
      let matches := getMatchingCommands (currentInput s) in
      if (length matches =? 1)%nat then
        Some (run (setCurrentInput (JS.at_index matches 0)) s)
      else if (1 <? length matches)%nat then
        (* Show available completions *)
        Some (run (addToHistory output
                     ("Possible completions: " +:+ JS.join ", " matches)) s)
      else Some s
  | ArrowUp =>
      if 0 <? len then
        let newIndex :=
          if historyIndex s =? -1 then len - 1
          else Z.max 0 (historyIndex s - 1) in
        Some (run (setHistoryIndex newIndex ;;
                   setCurrentInput (JS.at_index (commandHistory s) newIndex)) s)
      else Some s
  | ArrowDown =>
      if negb (historyIndex s =? -1) then
        let newIndex := Z.min (len - 1) (historyIndex s + 1) in
        if newIndex =? len - 1 then
          Some (run (setHistoryIndex (-1) ;; setCurrentInput (Some "")) s)
        else
          Some (run (setHistoryIndex newIndex ;;
                     setCurrentInput (JS.at_index (commandHistory s) newIndex)) s)
      else Some s
  | OtherKey => Some s
  end.

(** The input element's [onChange]: [setCurrentInput(e.target.value)]. *)
Definition onChange (value : string) (s : Session) : Session :=
  run (setCurrentInput (Some value)) s.

End Handlers.

(** The invariant of the session: the input buffer holds a string, and
    the recall cursor is the sentinel or an index of the command
    history. *)
Definition wellFormed (s : Session) : Prop :=
  currentInput s <> None
  /\ (historyIndex s = -1
      \/ 0 <= historyIndex s < Z.of_nat (length (commandHistory s))).

(** A sample clock and a sample session for the worked examples. *)
Definition clock (k : nat) : Q := inject_Z (1700000000000 + Z.of_nat k).

(** Three commands submitted, nothing recalled. *)
Definition threeCommands : Session :=
  {| currentInput := Some ""; history := welcomeLines; currentPage := home;
     commandHistory := ["whoami"; "ls"; "pwd"]; historyIndex := -1 |}.

(** The same session after two presses of ArrowUp: recalling index 1. *)
Definition recallingSecond : Session :=
  {| currentInput := Some "ls"; history := welcomeLines; currentPage := home;
     commandHistory := ["whoami"; "ls"; "pwd"]; historyIndex := 1 |}.

End Terminal.

(* ===================================================================== *)
(** * The blog reader: [src/components/blog.tsx]                          *)
(* ===================================================================== *)

Module Blog.

(** ** Front matter *)

(** A front-matter value: a string, or the array built from a bracketed
    value. *)
Inductive Value :=
| VStr (s : string)
| VArr (items : list string).

(** Result of [parseMarkdownWithFrontmatter]: the own properties of the
    [frontmatter] object, and [content]. *)
Record Parsed := {
  frontmatter : gmap string Value;
  content : string
}.

(** The ways [\s*\n] can match at the start of [s], in the order the
    backtracking matcher tries them: [\s*] is greedy, so the longest run
    of white space first.  Each way is given by the text left after the
    line feed it ends on. *)
Fixpoint ws_then_newline (s : string) : list string :=
  match s with
  | EmptyString => []
  | String c r =>
      if JS.isWhiteSpace c then
        ws_then_newline r ++ (if Ascii.eqb c JS.LF then [r] else [])
      else []
  end.

(** [\n---\s*\n] at the start of [s], followed by group 2, the greedy
    [[\s\S]*], and [$]: once the closing line has matched, the second
    group takes the rest of the input and [$] holds there, so the first
    way of [\s*\n] decides the second group, which is returned. *)
Definition closing (s : string) : option string :=
  if JS.startsWith s (String JS.LF "---")
  then head (ws_then_newline (JS.drop 4 s))
  else None.

(** The part of the pattern after the opening line, at the start of
    [s]: group 1, the lazy [[\s\S]*?], then [closing].  The lazy group
    is tried empty first, then one code unit longer at a time. *)
Fixpoint header_then_body (s : string) : option (string * string) :=
  match closing s with
  | Some markdownContent => Some (EmptyString, markdownContent)
  | None =>
      match s with
      | EmptyString => None
      | String c r =>
          match header_then_body r with
          | Some (header, markdownContent) =>
              Some (String c header, markdownContent)
          | None => None
          end
      end
  end.

Fixpoint first_match {A B} (f : A -> option B) (ways : list A) : option B :=
  match ways with
  | [] => None
  | w :: rest =>
      match f w with
      | Some r => Some r
      | None => first_match f rest
      end
  end.

(** [content.match(frontmatterRegex)]: the two captured groups, or
    [None] for [null].  The pattern opens with [^---\s*\n], is anchored
    at index 0 and has no flags. *)
Definition frontmatterRegex (content : string) : option (string * string) :=
  if JS.startsWith content "---"
  then first_match header_then_body (ws_then_newline (JS.drop 3 content))
  else None.

(** [frontmatter[key] = value] on an object created by [{}].  The key
    [__proto__] reaches the inherited accessor and creates no own
    property. *)
Definition assign (key : string) (value : Value)
    (frontmatter : gmap string Value) : gmap string Value :=
  if String.eqb key "__proto__" then frontmatter
  else <[key := value]> frontmatter.

Definition quoted (value : string) : bool :=
  JS.startsWith value (JS.chr JS.DQUOTE) && JS.endsWith value (JS.chr JS.DQUOTE)
  || JS.startsWith value (JS.chr JS.SQUOTE) && JS.endsWith value (JS.chr JS.SQUOTE).

(** The body of the [forEach] over the header lines. *)
Definition parseLine (frontmatter : gmap string Value) (line : string)
    : gmap string Value :=
  let colonIndex := JS.indexOf line ":" in
  if 0 <? colonIndex then
    let key := JS.trim (JS.slice line 0 (Some colonIndex)) in
    let value := JS.trim (JS.slice line (colonIndex + 1) None) in
    (* Remove quotes *)
    let value := if quoted value then JS.slice value 1 (Some (-1)) else value in
    (* Parse arrays *)
    if JS.startsWith value "[" && JS.endsWith value "]" then
      assign key
        (VArr (map (fun item => JS.replaceQuoteEnds (JS.trim item))
                   (JS.split "," (JS.slice value 1 (Some (-1))))))
        frontmatter
    else assign key (VStr value) frontmatter
  else frontmatter.

Definition parseFrontmatterText (frontmatterText : string) : gmap string Value :=
  fold_left parseLine (JS.split JS.LF frontmatterText) ∅.

Definition parseMarkdownWithFrontmatter (content : string) : Parsed :=
  match frontmatterRegex content with
  | Some (frontmatterText, markdownContent) =>
      {| frontmatter := parseFrontmatterText frontmatterText;
         content := markdownContent |}
  | None => {| frontmatter := ∅; content := content |}
  end.

(** ** The registry *)

(** [interface BlogPost] *)
Record BlogPost := {
  slug : string;
  title : string;
  date : string;
  readTime : string;
  excerpt : string;
  tags : list string;
  body : string   (* the [content] field *)
}.

Section Registry.

(** [getTime s] is [new Date(s).getTime()], with [None] for [NaN].
    Which strings a host parses beyond the ECMAScript date-time format
    is its own choice, so the host's function is a parameter. *)
Variable getTime : string -> option Z.

(** [(a, b) => new Date(b.date).getTime() - new Date(a.date).getTime()];
    the difference is [NaN] as soon as one side is.  Time values are
    integers of magnitude at most 8.64e15, so the sign of the rounded
    difference is the sign of the exact one. *)
Definition compareFn (a b : BlogPost) : option Z :=
  match getTime (date b), getTime (date a) with
  | Some tb, Some ta => Some (tb - ta)
  | _, _ => None
  end.

(** SortCompare of [Array.prototype.sort]: a [NaN] from the comparator
    counts as [+0]. *)
Definition SortCompare (a b : BlogPost) : Z :=
  match compareFn a b with
  | Some v => v
  | None => 0
  end.

(** [Array.prototype.sort] is a stable comparison sort; it is modelled
    by stable insertion: an element moves right past the elements that
    the comparator puts strictly before it, and past no other.  When all
    dates parse the comparator is consistent and the result is the one
    every stable sort returns ([RegistrySpec.sorted_stable_unique]): there
    the model is the host's sort.  When a comparison answers [NaN] the
    comparator is not consistent and ECMAScript leaves the order to the
    host.  On two records the one comparison a host makes answers [NaN],
    which counts as [+0], and no host moves either record, as in the
    model.  On three records or more of which one has no valid date the
    order depends on which pairs the host's merge compares, it can
    differ from stable insertion, and the model does not stand for it:
    nothing is stated about such lists. *)
Fixpoint insert (x : BlogPost) (sorted : list BlogPost) : list BlogPost :=
  match sorted with
  | [] => [x]
  | y :: rest =>
      if SortCompare x y <=? 0 then x :: y :: rest
      else y :: insert x rest
  end.

Fixpoint sort (posts : list BlogPost) : list BlogPost :=
  match posts with
  | [] => []
  | x :: rest => insert x (sort rest)
  end.

(** Sort by date (newest first): line 78 of [loadBlogPosts]. *)
Definition sortByDate (loadedPosts : list BlogPost) : list BlogPost :=
  sort loadedPosts.

(** Vocabulary for the order of the registry. *)

(** The date of [p] parses. *)
Definition hasDate (p : BlogPost) : Prop := getTime (date p) <> None.

(** Both dates parse, and [a] is at least as recent as [b]. *)
Definition notOlder (a b : BlogPost) : Prop :=
  exists ta tb,
    getTime (date a) = Some ta /\ getTime (date b) = Some tb /\ tb <= ta.

(** Both dates parse, and [a] is strictly older than [b]. *)
Definition older (a b : BlogPost) : Prop :=
  exists ta tb,
    getTime (date a) = Some ta /\ getTime (date b) = Some tb /\ ta < tb.

(** The date of [p] parses to the time value [t]. *)
Definition dated (t : Z) (p : BlogPost) : bool :=
  match getTime (date p) with
  | Some t' => t' =? t
  | None => false
  end.

End Registry.

(** ** The date-only form of the ECMAScript date-time string format *)

Definition digit (c : ascii) : option Z :=
  let n := Z.of_N (Ascii.N_of_ascii c) in
  if (48 <=? n) && (n <=? 57) then Some (n - 48) else None.

(** Days from 1970-01-01 to the given civil date; a day number past the
    end of the month counts on into the next month. *)
Definition daysFromCivil (y m d : Z) : Z :=
  let y' := if m <=? 2 then y - 1 else y in
  let era := y' / 400 in
  let yoe := y' - era * 400 in
  let mp := (m + 9) mod 12 in
  let doy := (153 * mp + 2) / 5 + d - 1 in
  let doe := yoe * 365 + yoe / 4 - yoe / 100 + doy in
  era * 146097 + doe - 719468.

(** The time value of a string of the form [YYYY-MM-DD], read as
    midnight UTC.  The month is 01 to 12 and the day 01 to 31 in every
    month: V8 checks no more, and there a day past the end of the month
    runs on into the next one (2024-02-30 is 2024-03-01); other hosts
    answer [NaN] on such a day.  It is a sample
    [getTime] for the examples, which use it on dates of the calendar,
    the form the posts have, and on the empty string, the default of a
    missing date, which is an invalid date on every host.  On strings of
    other forms, some of which a host reads as dates, it answers [None]
    and stands for no host. *)
Definition isoDate (s : string) : option Z :=
  match s with
  | String y1 (String y2 (String y3 (String y4 (String h1
      (String m1 (String m2 (String h2 (String d1 (String d2
        EmptyString))))))))) =>
      match digit y1, digit y2, digit y3, digit y4,
            digit m1, digit m2, digit d1, digit d2 with
      | Some a, Some b, Some c, Some d, Some e, Some f, Some g, Some h =>
          let y := 1000 * a + 100 * b + 10 * c + d in
          let m := 10 * e + f in
          let dd := 10 * g + h in
          if Ascii.eqb h1 "-" && Ascii.eqb h2 "-"
             && (1 <=? m) && (m <=? 12)
             && (1 <=? dd) && (dd <=? 31)
          then Some (daysFromCivil y m dd * 86400000)
          else None
      | _, _, _, _, _, _, _, _ => None
      end
  | _ => None
  end.

(** ** Sample records *)

(** A record with the defaults [loadBlogPosts] fills in: the title
    falls back to the slug, the rest to empty. *)
Definition post (slug date : string) : BlogPost :=
  {| slug := slug; title := slug; date := date; readTime := "";
     excerpt := ""; tags := []; body := "" |}.

Definition building : BlogPost := post "building-scalable-backends" "2024-01-15".
Definition optimizing : BlogPost := post "optimizing-database-queries" "2024-01-08".
Definition securing : BlogPost := post "secure-api-design" "2023-12-20".

(** A record whose source has no date: the field defaults to the empty
    string. *)
Definition undated : BlogPost := post "draft" "".

End Blog.

(* ===================================================================== *)
(** * The content source format, as the specification describes it       *)
(* ===================================================================== *)

(** A blog entry is a header of [key: value] lines between two [---]
    lines, followed by a body; a value is a plain string, a quoted string
    or a bracketed comma-list.  These definitions write that format down,
    to state what the parser recovers from it. *)
Module SourceFormat.

(** An element of a bracketed list: bare, or in quotes. *)
Inductive Item :=
| Bare (text : string)
| QuotedItem (quote : ascii) (text : string).

(** The value part of a header line. *)
Inductive Field :=
| Plain (v : string)
| Quoted (quote : ascii) (v : string)
| Bracketed (items : list Item).

Definition itemText (i : Item) : string :=
  match i with Bare t | QuotedItem _ t => t end.

(** What a field stands for. *)
Definition fieldValue (f : Field) : Blog.Value :=
  match f with
  | Plain v | Quoted _ v => Blog.VStr v
  | Bracketed items => Blog.VArr (map itemText items)
  end.

Definition renderItem (i : Item) : string :=
  match i with
  | Bare t => t
  | QuotedItem q t => String q (t +:+ JS.chr q)
  end.

Definition renderField (f : Field) : string :=
  match f with
  | Plain v => v
  | Quoted q v => String q (v +:+ JS.chr q)
  | Bracketed items => "[" +:+ JS.join ", " (map renderItem items) +:+ "]"
  end.

Definition renderLine (entry : string * Field) : string :=
  fst entry +:+ ": " +:+ renderField (snd entry).

(** The blob: opening line, header lines, closing line, body. *)
Definition render (entries : list (string * Field)) (body : string) : string :=
  "---" +:+ JS.chr JS.LF
  +:+ JS.join (JS.chr JS.LF) (map renderLine entries)
  +:+ JS.chr JS.LF +:+ "---" +:+ JS.chr JS.LF +:+ body.

(** The header mapping the entries stand for; a later entry overwrites
    an earlier one with the same key. *)
Definition header (entries : list (string * Field)) : gmap string Blog.Value :=
  fold_left (fun m entry => <[fst entry := fieldValue (snd entry)]> m) entries ∅.

Definition lacks (c : ascii) (s : string) : bool := JS.indexOf s c <? 0.

Definition isBracketed (v : string) : bool :=
  JS.startsWith v "[" && JS.endsWith v "]".

(** No quote as first or last code unit. *)
Definition noQuoteAtEnds (t : string) : bool :=
  negb (JS.startsWith t (JS.chr JS.DQUOTE))
  && negb (JS.startsWith t (JS.chr JS.SQUOTE))
  && negb (JS.endsWith t (JS.chr JS.DQUOTE))
  && negb (JS.endsWith t (JS.chr JS.SQUOTE)).

(** A key is not empty, has no colon and no line feed, no white space
    at either end, and is not [__proto__]. *)
Definition key_ok (k : string) : bool :=
  negb (String.eqb k "") && lacks ":" k && lacks JS.LF k
  && String.eqb (JS.trim k) k && negb (String.eqb k "__proto__").

Definition item_ok (i : Item) : bool :=
  match i with
  | Bare t =>
      lacks "," t && lacks JS.LF t && String.eqb (JS.trim t) t
      && noQuoteAtEnds t
  | QuotedItem q t => JS.isQuote q && lacks "," t && lacks JS.LF t
  end.

Definition field_ok (f : Field) : bool :=
  match f with
  | Plain v =>
      lacks JS.LF v && String.eqb (JS.trim v) v
      && negb (Blog.quoted v) && negb (isBracketed v)
  | Quoted q v => JS.isQuote q && lacks JS.LF v && negb (isBracketed v)
  | Bracketed items =>
      negb (match items with [] => true | _ => false end)
      && forallb item_ok items
  end.

Definition entry_ok (entry : string * Field) : bool :=
  key_ok (fst entry) && field_ok (snd entry).

(** A header line: no line feed, and a colon somewhere. *)
Definition keyed (line : string) : Prop :=
  lacks JS.LF line = true /\ lacks ":" line = false.

(** The text after the last line feed of the white space that opens
    [s], if that white space has a line feed. *)
Fixpoint afterBlankLines (s : string) : option string :=
  match s with
  | EmptyString => None
  | String c r =>
      if JS.isWhiteSpace c then
        match afterBlankLines r with
        | Some t => Some t
        | None => if Ascii.eqb c JS.LF then Some r else None
        end
      else None
  end.

(** [s] without its leading blank lines. *)
Definition stripBlankLines (s : string) : string :=
  match afterBlankLines s with
  | Some t => t
  | None => s
  end.

Definition opensWithBlankLine (s : string) : bool :=
  match afterBlankLines s with
  | Some _ => true
  | None => false
  end.

Fixpoint allWhiteSpace (s : string) : bool :=
  match s with
  | EmptyString => true
  | String c r => JS.isWhiteSpace c && allWhiteSpace r
  end.

(** The text reads: [---], white space, line feed, a header, line feed,
    [---], white space, line feed, a body. *)
Definition delimited (content : string) : Prop :=
  exists w1 headerText w2 body,
    allWhiteSpace w1 = true /\ allWhiteSpace w2 = true
    /\ content =
         "---" +:+ w1 +:+ JS.chr JS.LF +:+ headerText
         +:+ JS.chr JS.LF +:+ "---" +:+ w2 +:+ JS.chr JS.LF +:+ body.

(** The delimiters in the words of the specification: the first line is
    exactly [---], and a later line, exactly [---], closes the header;
    the lines after it are the body.  The delimiters of a text that is
    not of this form are absent or malformed. *)
Definition delimitedByExactLines (content : string) : Prop :=
  exists headerLines bodyLines,
    JS.split JS.LF content = "---" :: headerLines ++ "---" :: bodyLines.

(** A text whose two delimiter lines end with a space. *)
Definition paddedDelimiters : string :=
  "--- " +:+ JS.chr JS.LF +:+ "title: A" +:+ JS.chr JS.LF
  +:+ "--- " +:+ JS.chr JS.LF +:+ "BODY".

(** The blob of the specification's round-trip example, and the blob of
    a post whose body follows a blank line, as the posts of the site
    do. *)
Definition exampleEntries : list (string * Field) :=
  [ ("title", Quoted JS.DQUOTE "A");
    ("tags", Bracketed [Bare "a"; Bare "b"]) ].

Definition postWithBlankLine : string :=
  render [("title", Quoted JS.DQUOTE "A")] (JS.chr JS.LF +:+ "# Post").

(** The header of [src/content/blog/secure-api-design.md]. *)
Definition secureApiDesign : list (string * Field) :=
  [ ("title",
     Quoted JS.DQUOTE "Essential Security Practices for API Development");
    ("date", Quoted JS.DQUOTE "2023-12-20");
    ("readTime", Quoted JS.DQUOTE "6 min read");
    ("excerpt",
     Quoted JS.DQUOTE
       "Essential security practices for API development including authentication, authorization, rate limiting, and input validation.");
    ("tags",
     Bracketed [ QuotedItem JS.DQUOTE "api"; QuotedItem JS.DQUOTE "security";
                 QuotedItem JS.DQUOTE "authentication";
                 QuotedItem JS.DQUOTE "best-practices" ]) ].

End SourceFormat.

(* ===================================================================== *)
(** * The terminal session under a sequence of events                     *)
(* ===================================================================== *)

Module Interaction.
Import Terminal.

(** What reaches the input element: an edit of its text, handled by
    [onChange], or a key, handled by [handleKeyDown]. *)
Inductive Event :=
| Edit (value : string)
| Press (key : Key).

Definition step (now : nat -> Q) (e : Event) (s : Session) : option Session :=
  match e with
  | Edit value => Some (onChange value s)
  | Press key => handleKeyDown now key s
  end.

(** The events are handled one after another; [clock n] is the clock of
    the handler run for the [n]-th event.  [None] once a handler has
    raised. *)
Fixpoint steps (clock : nat -> nat -> Q) (n : nat) (events : list Event)
    (s : Session) : option Session :=
  match events with
  | [] => Some s
  | e :: rest =>
      match step (clock n) e s with
      | Some s' => steps clock (S n) rest s'
      | None => None
      end
  end.

(** Each input is typed into the buffer and submitted with Enter. *)
Definition submissions (inputs : list string) : list Event :=
  flat_map (fun input => [Edit input; Press Enter]) inputs.

(** The view a command navigates to: the three cases of the switch that
    call [setCurrentPage]. *)
Definition target (command_ : string) : option Page :=
  let cmd := JS.trim (JS.toLowerCase command_) in
  if String.eqb cmd "projects" then Some projects
  else if String.eqb cmd "blog" then Some blog
  else if String.eqb cmd "home" then Some home
  else None.

(** The target of the last navigating command of a list, if any. *)
Definition lastTarget (inputs : list string) : option Page :=
  fold_left
    (fun found input =>
       match target input with Some p => Some p | None => found end)
    inputs None.

(** The condition under which the hint "Press Tab to auto-complete" is
    rendered:
    [currentInput && hasPartialMatch(currentInput) && !isValidCommand(currentInput)]. *)
Definition showsHint (input : option string) : bool :=
  match input with
  | None | Some EmptyString => false
  | Some text => hasPartialMatch input && negb (isValidCommand text)
  end.

(** The colour class of the input element: [text-gray-300] on an empty
    buffer, then [terminal-green] on a known command, [text-yellow-400]
    on a proper prefix of one, and [text-gray-300] otherwise. *)
Inductive InputClass := textGray300 | terminalGreen | textYellow400.

Definition inputClass (input : option string) : InputClass :=
  match input with
  | None | Some EmptyString => textGray300
  | Some text =>
      if isValidCommand text then terminalGreen
      else if hasPartialMatch input then textYellow400
      else textGray300
  end.

(** A sample clock for the worked examples. *)
Definition sampleClock (n k : nat) : Q :=
  inject_Z (1700000000000 + 1000 * Z.of_nat n + Z.of_nat k).

End Interaction.

(* ===================================================================== *)
(** * Loading the registry: [loadBlogPosts]                               *)
(* ===================================================================== *)

Module Loader.
Import Blog.

(** A record as [loadBlogPosts] builds it.  The interface declares the
    fields strings and [tags] an array, but they hold whatever the
    header held: a string, or an array for a bracketed value. *)
Record LoadedPost := {
  slug : string;
  title : Value;
  date : Value;
  readTime : Value;
  excerpt : Value;
  tags : Value;
  content : string
}.

(** [parsed.frontmatter.key || fallback].  A missing key reads as
    [undefined]; [undefined] and the empty string are falsy, every array
    is truthy.  The five keys read are not names of [Object.prototype]
    or [Array.prototype], so a read finds an own property or nothing. *)
Definition orElse (read : option Value) (fallback : Value) : Value :=
  match read with
  | None | Some (VStr EmptyString) => fallback
  | Some v => v
  end.

(** The body of the loop over [blogPosts].  [parseMarkdownWithFrontmatter]
    raises nothing, so the [catch] of the loop is never entered and
    every source is pushed. *)
Definition toPost (post : string * string) : LoadedPost :=
  let parsed := parseMarkdownWithFrontmatter (snd post) in
  {| slug := fst post;
     title := orElse (frontmatter parsed !! "title") (VStr (fst post));
     date := orElse (frontmatter parsed !! "date") (VStr "");
     readTime := orElse (frontmatter parsed !! "readTime") (VStr "");
     excerpt := orElse (frontmatter parsed !! "excerpt") (VStr "");
     tags := orElse (frontmatter parsed !! "tags") (VArr []);
     content := Blog.content parsed |}.

(** Stable insertion sort under a comparator that may answer [NaN]
    ([None]), as in [Blog.sort], and with the same reach: it is the
    host's sort when no comparison answers [NaN], and on at most two
    records; on longer lists with a [NaN] comparison the host's order
    is its own, and nothing is stated about it. *)
Section Sorting.

Context {A : Type}.
Variable compareFn : A -> A -> option Z.

Definition SortCompare (a b : A) : Z :=
  match compareFn a b with
  | Some v => v
  | None => 0
  end.

Fixpoint insertWith (x : A) (sorted : list A) : list A :=
  match sorted with
  | [] => [x]
  | y :: rest =>
      if SortCompare x y <=? 0 then x :: y :: rest
      else y :: insertWith x rest
  end.

Fixpoint sortWith (items : list A) : list A :=
  match items with
  | [] => []
  | x :: rest => insertWith x (sortWith rest)
  end.

End Sorting.

Section Registry.

Variable getTime : string -> option Z.

(** [new Date(value).getTime()].  An array is first converted to a
    primitive, which is its elements joined by commas. *)
Definition timeOf (value : Value) : option Z :=
  match value with
  | VStr s => getTime s
  | VArr items => getTime (JS.join "," items)
  end.

(** [(a, b) => new Date(b.date).getTime() - new Date(a.date).getTime()] *)
Definition byDate (a b : LoadedPost) : option Z :=
  match timeOf (date b), timeOf (date a) with
  | Some tb, Some ta => Some (tb - ta)
  | _, _ => None
  end.

(** [loadBlogPosts], up to [setPosts]: the records of the sources, in
    source order, then sorted by date (newest first). *)
Definition loadBlogPosts (blogPosts : list (string * string)) : list LoadedPost :=
  sortWith byDate (map toPost blogPosts).

(** Vocabulary for the order of the loaded registry. *)

Definition hasDate (p : LoadedPost) : Prop := timeOf (date p) <> None.

Definition notOlder (a b : LoadedPost) : Prop :=
  exists ta tb,
    timeOf (date a) = Some ta /\ timeOf (date b) = Some tb /\ tb <= ta.

Definition dated (t : Z) (p : LoadedPost) : bool :=
  match timeOf (date p) with
  | Some t' => t' =? t
  | None => false
  end.

End Registry.

(** The sources of two of the site's posts, headers as written (the
    second has a space after its date), bodies cut short; and a note
    without front matter. *)
Definition secureSource : string :=
  SourceFormat.render SourceFormat.secureApiDesign
    (JS.chr JS.LF +:+ "# Essential Security Practices for API Development").

Definition optimizingSource : string :=
  "---" +:+ JS.chr JS.LF
  +:+ "title: " +:+ JS.chr JS.DQUOTE
  +:+ "Database Query Optimization: From Slow to Lightning Fast"
  +:+ JS.chr JS.DQUOTE +:+ JS.chr JS.LF
  +:+ "date: " +:+ JS.chr JS.DQUOTE +:+ "2024-01-08" +:+ JS.chr JS.DQUOTE
  +:+ " " +:+ JS.chr JS.LF
  +:+ "readTime: " +:+ JS.chr JS.DQUOTE +:+ "8 min read" +:+ JS.chr JS.DQUOTE
  +:+ JS.chr JS.LF
  +:+ "---" +:+ JS.chr JS.LF +:+ JS.chr JS.LF
  +:+ "# Database Query Optimization".

Definition noteSource : string := "# Notes" +:+ JS.chr JS.LF +:+ "to do".

Definition sampleSources : list (string * string) :=
  [ ("notes", noteSource);
    ("secure-api-design", secureSource);
    ("optimizing-database-queries", optimizingSource) ].

End Loader.

(* ===================================================================== *)
(** * Rendering a scrollback line: [renderContent] in [history.map]       *)
(* ===================================================================== *)

Module Render.
Import Terminal.

(** What a line is rendered as: plain spans, the highlighted command of
    a help entry, and anchors, whose target and text are the same
    string. *)
Inductive Piece :=
| Span (text : string)
| Command (text : string)
| Link (href : string).

Definition pieceText (p : Piece) : string :=
  match p with Span t | Command t | Link t => t end.

(** The text a reader sees: the pieces one after another. *)
Definition textOf (pieces : list Piece) : string :=
  fold_right (fun p rest => pieceText p +:+ rest) EmptyString pieces.

(** [\w]: a letter, a digit or the underscore. *)
Definition isWord (c : ascii) : bool :=
  let n := Ascii.N_of_ascii c in
  ((48 <=? n) && (n <=? 57) || (65 <=? n) && (n <=? 90)
   || (n =? 95) || (97 <=? n) && (n <=? 122))%N.

(** What [.] does not match: the line terminators, LF and CR below 256. *)
Definition isLineTerminator (c : ascii) : bool :=
  match Ascii.N_of_ascii c with
  | 10 | 13 => true
  | _ => false
  end%N.

Definition notWhiteSpace (c : ascii) : bool := negb (JS.isWhiteSpace c).

Fixpoint takeWhile (p : ascii -> bool) (s : string) : string :=
  match s with
  | EmptyString => EmptyString
  | String c r => if p c then String c (takeWhile p r) else EmptyString
  end.

Fixpoint dropWhile (p : ascii -> bool) (s : string) : string :=
  match s with
  | EmptyString => EmptyString
  | String c r => if p c then dropWhile p r else s
  end.

Fixpoint anyChar (p : ascii -> bool) (s : string) : bool :=
  match s with
  | EmptyString => false
  | String c r => p c || anyChar p r
  end.

(** The three groups of the help pattern: white space, a word, and a
    description that reads white space, a hyphen, white space and the
    rest of the line.  White space, word characters and the hyphen
    exclude one another, so each greedy group can only take its longest
    run; the description matches when what follows the hyphen, past its
    leading white space, has no line terminator. *)
Definition helpMatch (content : string) : option (string * string * string) :=
  let indent := takeWhile JS.isWhiteSpace content in
  let afterIndent := dropWhile JS.isWhiteSpace content in
  let command_ := takeWhile isWord afterIndent in
  let description := dropWhile isWord afterIndent in
  match command_, dropWhile JS.isWhiteSpace description with
  | String _ _, String dash tail =>
      if Ascii.eqb dash "-"
         && negb (anyChar isLineTerminator (dropWhile JS.isWhiteSpace tail))
      then Some (indent, command_, description)
      else None
  | _, _ => None
  end.

(** The scheme of the URL pattern, [https?:\/\/], at the start of [s]:
    the scheme and what follows it. *)
Definition schemeAt (s : string) : option (string * string) :=
  if JS.startsWith s "https://" then Some ("https://", JS.drop 8 s)
  else if JS.startsWith s "http://" then Some ("http://", JS.drop 7 s)
  else None.

(** The URL pattern at the start of [s]: the scheme, then the longest
    run of one or more code units that are not white space.  The match
    and the text after it. *)
Definition matchAt (s : string) : option (string * string) :=
  match schemeAt s with
  | Some (scheme, rest) =>
      match takeWhile notWhiteSpace rest with
      | EmptyString => None
      | run => Some (scheme +:+ run, dropWhile notWhiteSpace rest)
      end
  | None => None
  end.

(** [content.split(urlRegex)], from the position reached: [pending] is
    the text since the last match, [s] is what is left.  The pattern is
    tried at each position in turn; a match closes the pending text,
    contributes its one captured group, and the scan resumes after it.
    The fuel bounds the number of steps by the length of the text. *)
Fixpoint splitFrom (fuel : nat) (pending s : string) : list string :=
  match s with
  | EmptyString => [pending]
  | String c r =>
      match fuel with
      | O => [pending +:+ s]
      | S fuel' =>
          match matchAt s with
          | Some (url, rest) => pending :: url :: splitFrom fuel' EmptyString rest
          | None => splitFrom fuel' (pending +:+ JS.chr c) r
          end
      end
  end.

Definition splitUrl (content : string) : list string :=
  splitFrom (String.length content) EmptyString content.

(** The end of the first match of the pattern in [s], if there is one. *)
Fixpoint findMatch (s : string) : option nat :=
  match matchAt s with
  | Some (url, _) => Some (String.length url)
  | None =>
      match s with
      | EmptyString => None
      | String _ r =>
          match findMatch r with
          | Some e => Some (S e)
          | None => None
          end
      end
  end.

(** [urlRegex.test(part)] on the global pattern, whose [lastIndex] the
    call reads and writes: the search starts at [lastIndex]; a match
    moves [lastIndex] to its end, a failure resets it to 0. *)
Definition test (lastIndex : nat) (part : string) : bool * nat :=
  if (String.length part <? lastIndex)%nat then (false, O)
  else match findMatch (JS.drop lastIndex part) with
       | Some e => (true, (lastIndex + e)%nat)
       | None => (false, O)
       end.

(** [parts.map(...)]: the parts are tested in order on the one pattern
    object. *)
Fixpoint renderParts (lastIndex : nat) (parts : list string) : list Piece :=
  match parts with
  | [] => []
  | part :: rest =>
      let (found, lastIndex') := test lastIndex part in
      (if found then Link part else Span part) :: renderParts lastIndex' rest
  end.

(** [renderContent(line.content, line.type)]; the pattern object is
    created anew by each call. *)
Definition renderContent (content : string) (lineType : LineType) : list Piece :=
  match (match lineType with help => helpMatch content | _ => None end) with
  | Some (indent, command_, description) =>
      [Span indent; Command command_; Span description]
  | None => renderParts 0 (splitUrl content)
  end.

(** A text in which the pattern matches nowhere, and a text the pattern
    matches from end to end. *)
Definition urlFree (t : string) : Prop := findMatch t = None.
Definition isUrl (u : string) : Prop := matchAt u = Some (u, EmptyString).

(** A span holds no URL, and an anchor is one. *)
Definition wellClassified (p : Piece) : Prop :=
  match p with
  | Span t => urlFree t
  | Link u => isUrl u
  | Command _ => False
  end.

(** The invariant of the split: no match starts inside [pending] when
    [s] follows it. *)
Definition noStart (pending s : string) : Prop :=
  forall a b,
    pending = a +:+ b -> b <> EmptyString -> matchAt (b +:+ s) = None.

Fixpoint allChars (p : ascii -> bool) (s : string) : bool :=
  match s with
  | EmptyString => true
  | String c r => p c && allChars p r
  end.

(** A line whose rendering, if it is a help entry, highlights a command
    that the terminal accepts. *)
Definition highlightsCommand (l : TerminalLine) : Prop :=
  type l = help ->
  exists indent name description,
    renderContent (content l) (type l)
    = [Span indent; Command name; Span description]
    /\ In name validCommands.

End Render.

(* ===================================================================== *)
(** * Properties of the terminal session                                  *)
(* ===================================================================== *)

Module TerminalSpec.
Import Terminal.

(** The normal form the dispatcher switches on. *)
Abbreviation normalize command := (JS.trim (JS.toLowerCase command)).

(** The command-echo line of a submission. *)
Abbreviation echo now command_ :=
  {| id := now 0%nat; type := command;
     content := prompt +:+ " " +:+ command_ |}.

Lemma eqb_lit (a b : string) : a <> b -> String.eqb a b = false.
Proof. intro H. now apply String.eqb_neq. Qed.

(** Decides the comparisons of the switch whose two sides are known. *)
Ltac decide_cases :=
  repeat match goal with
         | |- context [String.eqb ?a ?b] =>
             let v := eval vm_compute in (String.eqb a b) in
             lazymatch v with
             | true => change (String.eqb a b) with true
             | false => change (String.eqb a b) with false
             end
         end;
  cbv iota.

(** Applies the queued updates in order, by value, down to the record of
    the resulting session. *)
Ltac apply_updates :=
  cbv [run andThen skip addToHistory setHistory setCommandHistory
       setHistoryIndex setCurrentPage setCurrentInput snd fst
       currentInput history currentPage commandHistory historyIndex].

(** Every submission appends the raw input to the command history and
    resets the recall cursor, whatever the command. *)
Lemma submission_recorded now command_ s :
  let s' := run (executeCommand now command_) s in
  commandHistory s' = commandHistory s ++ [command_]
  /\ historyIndex s' = -1
  /\ currentInput s' = currentInput s.
Proof.
  unfold executeCommand. set (cmd := normalize command_).
  repeat match goal with
         | |- context [String.eqb cmd ?name] => destruct (String.eqb cmd name)
         end;
    apply_updates; auto.
Qed.

(** ** [help] *)

(** C1, as amended.  For every input that normalizes to [help], the
    dispatcher appends the echo of the raw input behind the prompt, then
    one header line and six description lines, for whoami, projects,
    blog, contact, clear and home in this order; help, ls and pwd have
    no entry.  The active view is unchanged. *)
Theorem help_appends_header_and_six_entries now command_ s :
  normalize command_ = "help" ->
  run (executeCommand now command_) s =
    {| currentInput := currentInput s;
       history :=
         history s ++
         [ echo now command_;
           {| id := now 1%nat; type := output;
              content := "Available commands:" |};
           {| id := now 2%nat; type := help;
              content := "  whoami     - Display personal information" |};
           {| id := now 3%nat; type := help;
              content := "  projects   - View my projects" |};
           {| id := now 4%nat; type := help;
              content := "  blog       - Read my blog posts" |};
           {| id := now 5%nat; type := help;
              content := "  contact    - Get contact information" |};
           {| id := now 6%nat; type := help;
              content := "  clear      - Clear terminal" |};
           {| id := now 7%nat; type := help;
              content := "  home       - Return to home page" |} ];
       currentPage := currentPage s;
       commandHistory := commandHistory s ++ [command_];
       historyIndex := -1 |}.
Proof.
  intros H. unfold executeCommand. rewrite H. decide_cases.
  apply_updates. now rewrite <- !app_assoc.
Qed.

Lemma help_appends_header_and_six_entries_witness :
  normalize "  HeLP " = "help"
  /\ run (executeCommand clock "  HeLP ") mounted =
       {| currentInput := Some "";
          history :=
            welcomeLines ++
            [ echo clock "  HeLP ";
              {| id := clock 1%nat; type := output;
                 content := "Available commands:" |};
              {| id := clock 2%nat; type := help;
                 content := "  whoami     - Display personal information" |};
              {| id := clock 3%nat; type := help;
                 content := "  projects   - View my projects" |};
              {| id := clock 4%nat; type := help;
                 content := "  blog       - Read my blog posts" |};
              {| id := clock 5%nat; type := help;
                 content := "  contact    - Get contact information" |};
              {| id := clock 6%nat; type := help;
                 content := "  clear      - Clear terminal" |};
              {| id := clock 7%nat; type := help;
                 content := "  home       - Return to home page" |} ];
          currentPage := home;
          commandHistory := ["  HeLP "];
          historyIndex := -1 |}.
Proof.
  split; [reflexivity |].
  exact (help_appends_header_and_six_entries clock "  HeLP " mounted eq_refl).
Defined.

(** C1, as stated, fails on the input HELP: after the echo and the
    header there are six description lines, not one for each of the nine
    known commands. *)
Lemma help_does_not_list_every_command :
  normalize "HELP" = "help"
  /\ ~ exists echo_line header entries,
         history (run (executeCommand clock "HELP") mounted)
         = history mounted ++ echo_line :: header :: entries
         /\ length entries = length validCommands.
Proof.
  split; [reflexivity |].
  intros (e & h & entries & Heq & Hlen).
  apply (f_equal (@length _)) in Heq.
  rewrite length_app in Heq. cbn [length] in Heq. rewrite Hlen in Heq.
  vm_compute in Heq. discriminate Heq.
Qed.

(** ** The empty submission *)

(** C3, as amended.  Submitting the empty string appends exactly one
    line to the scrollback, the echo made of the prompt and the empty
    input; it appends the empty string to the command history and resets
    the recall cursor. *)
Theorem empty_submission_echoes_only now s :
  run (executeCommand now "") s =
    {| currentInput := currentInput s;
       history := history s ++ [echo now ""];
       currentPage := currentPage s;
       commandHistory := commandHistory s ++ [""];
       historyIndex := -1 |}.
Proof.
  unfold executeCommand.
  change (normalize "") with EmptyString. decide_cases.
  apply_updates. reflexivity.
Qed.

(** C3, as stated, fails: the scrollback does not stay as it was. *)
Lemma empty_submission_changes_scrollback :
  history (run (executeCommand clock "") mounted) <> history mounted.
Proof.
  intros H. apply (f_equal (@length _)) in H. vm_compute in H.
  discriminate H.
Qed.

(** ** Unrecognized input *)

(** C6, as amended.  For every input whose normal form is neither empty
    nor a known command, the dispatcher appends, after the echo, exactly
    one error line, which names the raw input and points to help.  The
    command history gains the raw input, the recall cursor is reset, and
    the active view and the input buffer are unchanged. *)
Theorem unknown_command_appends_one_error now command_ s :
  normalize command_ <> "" ->
  ~ In (normalize command_) validCommands ->
  run (executeCommand now command_) s =
    {| currentInput := currentInput s;
       history :=
         history s ++
           [ echo now command_;
             {| id := now 1%nat; type := error;
                content := "Command not found: " +:+ command_
                           +:+ ". Type 'help' for available commands." |} ];
       currentPage := currentPage s;
       commandHistory := commandHistory s ++ [command_];
       historyIndex := -1 |}.
Proof.
  intros Hne Hnot. unfold executeCommand.
  unfold validCommands in Hnot. cbn [In] in Hnot.
  rewrite !eqb_lit by (intros E; first [now apply Hne | apply Hnot; rewrite E; tauto]).
  apply_updates. now rewrite <- !app_assoc.
Qed.

Lemma unknown_command_appends_one_error_witness :
  normalize " Foo" <> ""
  /\ ~ In (normalize " Foo") validCommands
  /\ run (executeCommand clock " Foo") initial =
       {| currentInput := Some "";
          history :=
            [ echo clock " Foo";
              {| id := clock 1%nat; type := error;
                 content :=
                   "Command not found:  Foo. Type 'help' for available commands." |} ];
          currentPage := home;
          commandHistory := [" Foo"];
          historyIndex := -1 |}.
Proof.
  assert (Hne : normalize " Foo" <> "") by discriminate.
  assert (Hnot : ~ In (normalize " Foo") validCommands).
  { cbn. intros H. repeat (destruct H as [H | H]; [discriminate H |]). exact H. }
  split; [exact Hne |]. split; [exact Hnot |].
  exact (unknown_command_appends_one_error clock " Foo" initial Hne Hnot).
Defined.

(** C6, as stated, fails on an input of one space: it is not empty, its
    normal form is none of the nine names, and no error line is
    appended. *)
Lemma blank_input_appends_no_error :
  " " <> ""
  /\ ~ In (normalize " ") validCommands
  /\ history (run (executeCommand clock " ") mounted)
     = history mounted ++ [echo clock " "].
Proof.
  split; [discriminate |]. split; [| reflexivity].
  cbn. intros H. repeat (destruct H as [H | H]; [discriminate H |]). exact H.
Qed.

(** ** [clear] *)

(** C7, as amended.  Submitting an input that normalizes to [clear]
    replaces the scrollback with the empty sequence and leaves the active
    view unchanged; the command history keeps its entries and gains the
    raw input as its new last entry. *)
Theorem clear_empties_scrollback now command_ s :
  normalize command_ = "clear" ->
  run (executeCommand now command_) s =
    {| currentInput := currentInput s;
       history := [];
       currentPage := currentPage s;
       commandHistory := commandHistory s ++ [command_];
       historyIndex := -1 |}.
Proof.
  intros H. unfold executeCommand. rewrite H. decide_cases.
  apply_updates. reflexivity.
Qed.

Lemma clear_empties_scrollback_witness :
  normalize " CLEAR " = "clear"
  /\ run (executeCommand clock " CLEAR ") threeCommands =
       {| currentInput := Some "";
          history := [];
          currentPage := home;
          commandHistory := ["whoami"; "ls"; "pwd"; " CLEAR "];
          historyIndex := -1 |}.
Proof.
  split; [reflexivity |].
  exact (clear_empties_scrollback clock " CLEAR " threeCommands eq_refl).
Defined.

(** C7, as stated, fails: [clear] is itself appended to the command
    history, whose length grows by one. *)
Lemma clear_grows_command_history :
  normalize "clear" = "clear"
  /\ commandHistory (run (executeCommand clock "clear") threeCommands)
     <> commandHistory threeCommands.
Proof. split; [reflexivity | discriminate]. Qed.

(** ** Recall with the arrow keys *)

Abbreviation last_index s := (Z.of_nat (length (commandHistory s)) - 1).

Lemma at_index_in_range {A} (l : list A) (i : Z) :
  0 <= i < Z.of_nat (length l) -> JS.at_index l i <> None.
Proof.
  intros [Hlo Hhi]. unfold JS.at_index.
  destruct (Z.ltb_spec i 0) as [| _]; [lia |].
  intros E. apply nth_error_None in E. lia.
Qed.

(** Every key press keeps the invariant and raises no error: the
    buffer never becomes [undefined]. *)
Lemma handleKeyDown_wellFormed now key s :
  wellFormed s ->
  exists s', handleKeyDown now key s = Some s' /\ wellFormed s'.
Proof.
  destruct s as [input lines page commands index].
  unfold wellFormed. cbn [currentInput historyIndex commandHistory].
  intros [Hinput Hindex].
  destruct key; unfold handleKeyDown;
    cbn [currentInput historyIndex commandHistory].
  - destruct input as [text |]; [| contradiction].
    eexists. split; [reflexivity |].
    destruct (submission_recorded now text
                {| currentInput := Some text; history := lines;
                   currentPage := page; commandHistory := commands;
                   historyIndex := index |}) as (_ & Hi & _).
    unfold run, andThen in *.
    destruct (executeCommand now text _) as [k [input' lines' page' commands' index']].
    cbn in *. split; [discriminate | now left].
  - destruct (getMatchingCommands input) as [| m [| m' ms]] eqn:Hm;
      cbn [length Nat.eqb Nat.ltb Nat.leb]; eexists;
      (split; [reflexivity |]); apply_updates; split;
      try assumption; discriminate.
  - destruct (Z.ltb_spec 0 (Z.of_nat (length commands))) as [Hlen |];
      [| eexists; split; [reflexivity | now split]].
    eexists. split; [reflexivity |]. apply_updates.
    destruct (Z.eqb_spec index (-1)) as [-> | Hne].
    + split; [apply at_index_in_range |]; lia.
    + split; [apply at_index_in_range |]; lia.
  - destruct (Z.eqb_spec index (-1)) as [-> | Hne]; cbn [negb];
      [eexists; split; [reflexivity | now split] |].
    destruct (Z.eqb_spec (Z.min (Z.of_nat (length commands) - 1) (index + 1))
                (Z.of_nat (length commands) - 1)) as [_ | Hlt];
      eexists; (split; [reflexivity |]); apply_updates.
    + split; [discriminate | now left].
    + split; [apply at_index_in_range |]; lia.
  - eexists. split; [reflexivity | now split].
Qed.

(** ArrowDown while live changes nothing. *)
Lemma arrow_down_live now s :
  historyIndex s = -1 -> handleKeyDown now ArrowDown s = Some s.
Proof. intros H. unfold handleKeyDown. now rewrite H. Qed.

(** ArrowDown on the last entry returns to live and clears the buffer. *)
Lemma arrow_down_at_last now s :
  0 <= historyIndex s -> historyIndex s = last_index s ->
  handleKeyDown now ArrowDown s =
    Some {| currentInput := Some ""; history := history s;
            currentPage := currentPage s;
            commandHistory := commandHistory s; historyIndex := -1 |}.
Proof.
  intros H0 Hlast. unfold handleKeyDown.
  destruct (Z.eqb_spec (historyIndex s) (-1)) as [E | _]; [lia |]. cbn [negb].
  rewrite Hlast, Z.min_l by lia. now rewrite Z.eqb_refl.
Qed.

(** ArrowDown two or more entries before the last moves one entry
    forward and copies that entry into the buffer. *)
Lemma arrow_down_before_second_to_last now s :
  0 <= historyIndex s -> historyIndex s + 1 < last_index s ->
  handleKeyDown now ArrowDown s =
    Some {| currentInput := JS.at_index (commandHistory s) (historyIndex s + 1);
            history := history s;
            currentPage := currentPage s;
            commandHistory := commandHistory s;
            historyIndex := historyIndex s + 1 |}.
Proof.
  intros H0 Hlt. unfold handleKeyDown.
  destruct (Z.eqb_spec (historyIndex s) (-1)) as [E | _]; [lia |]. cbn [negb].
  rewrite Z.min_r by lia.
  destruct (Z.eqb_spec (historyIndex s + 1) (last_index s)) as [E | _]; [lia |].
  reflexivity.
Qed.

(** ArrowDown on the entry just before the last does not show the last
    entry: the clamped index equals the last index, which the handler
    takes for the end of the history. *)
Lemma arrow_down_at_second_to_last now s :
  0 <= historyIndex s -> historyIndex s + 1 = last_index s ->
  handleKeyDown now ArrowDown s =
    Some {| currentInput := Some ""; history := history s;
            currentPage := currentPage s;
            commandHistory := commandHistory s; historyIndex := -1 |}.
Proof.
  intros H0 Hlast. unfold handleKeyDown.
  destruct (Z.eqb_spec (historyIndex s) (-1)) as [E | _]; [lia |]. cbn [negb].
  rewrite Z.min_r by lia. rewrite Hlast. now rewrite Z.eqb_refl.
Qed.

(** [recallingSecond] is what two presses of ArrowUp make of
    [threeCommands]. *)
Example two_arrow_ups :
  match handleKeyDown clock ArrowUp threeCommands with
  | Some s1 => handleKeyDown clock ArrowUp s1
  | None => None
  end = Some recallingSecond.
Proof. reflexivity. Qed.

(** C4, at the failing input.  With three commands in the history and
    the cursor on index 1, strictly before the last index 2, ArrowDown
    returns to live with an empty buffer; it does not move to index 2
    with [pwd] in the buffer. *)
Theorem arrow_down_skips_last_entry :
  historyIndex recallingSecond = 1
  /\ last_index recallingSecond = 2
  /\ handleKeyDown clock ArrowDown recallingSecond = Some threeCommands
  /\ historyIndex threeCommands = -1
  /\ currentInput threeCommands = Some ""
  /\ JS.at_index (commandHistory recallingSecond) 2 = Some "pwd".
Proof. repeat split. Qed.

(** ** Editing while recalling *)

(** C5, as amended.  A free-text edit overwrites the input buffer with
    the edited text and changes nothing else; in particular the recall
    cursor stays where it was.  When the cursor is on index [i], a
    following ArrowUp moves it to [max 0 (i - 1)] and copies that entry
    into the buffer. *)
Theorem edit_keeps_recall_cursor now value s :
  0 <= historyIndex s <= last_index s ->
  onChange value s =
    {| currentInput := Some value; history := history s;
       currentPage := currentPage s;
       commandHistory := commandHistory s;
       historyIndex := historyIndex s |}
  /\ handleKeyDown now ArrowUp (onChange value s) =
       Some {| currentInput :=
                 JS.at_index (commandHistory s) (Z.max 0 (historyIndex s - 1));
               history := history s;
               currentPage := currentPage s;
               commandHistory := commandHistory s;
               historyIndex := Z.max 0 (historyIndex s - 1) |}.
Proof.
  destruct s as [input lines page commands index].
  cbn [historyIndex commandHistory currentPage history].
  intros [Hlo Hhi]. split; [reflexivity |].
  unfold handleKeyDown, onChange. apply_updates.
  destruct (Z.ltb_spec 0 (Z.of_nat (length commands))) as [_ |]; [| lia].
  destruct (Z.eqb_spec index (-1)) as [E | _]; [lia |].
  reflexivity.
Qed.

Lemma edit_keeps_recall_cursor_witness :
  0 <= historyIndex recallingSecond <= last_index recallingSecond
  /\ onChange "lsblk" recallingSecond =
       {| currentInput := Some "lsblk"; history := welcomeLines;
          currentPage := home;
          commandHistory := ["whoami"; "ls"; "pwd"];
          historyIndex := 1 |}
  /\ handleKeyDown clock ArrowUp (onChange "lsblk" recallingSecond) =
       Some {| currentInput := Some "whoami"; history := welcomeLines;
               currentPage := home;
               commandHistory := ["whoami"; "ls"; "pwd"];
               historyIndex := 0 |}.
Proof.
  assert (H : 0 <= historyIndex recallingSecond <= last_index recallingSecond)
    by (cbn; lia).
  split; [exact H |].
  exact (edit_keeps_recall_cursor clock "lsblk" recallingSecond H).
Defined.

(** C5, as stated, fails: after an edit made while recalling index 1 the
    cursor is still 1, not the sentinel, and the next ArrowUp goes on to
    index 0 instead of entering at the last index 2. *)
Lemma edit_does_not_reset_cursor :
  historyIndex recallingSecond = 1
  /\ historyIndex (onChange "lsblk" recallingSecond) <> -1
  /\ exists s',
       handleKeyDown clock ArrowUp (onChange "lsblk" recallingSecond) = Some s'
       /\ historyIndex s' = 0
       /\ historyIndex s' <> last_index recallingSecond.
Proof.
  split; [reflexivity |]. split; [discriminate |].
  eexists. split; [reflexivity |]. split; [reflexivity | discriminate].
Qed.

(** ** Completion *)

(** C10.  With an empty input buffer the completion key changes
    nothing: the session, and so the buffer and the scrollback, are as
    before; yet every known command name starts with the normal form of
    the empty buffer. *)
Theorem tab_on_empty_buffer now s :
  currentInput s = Some "" ->
  handleKeyDown now Tab s = Some s
  /\ Forall (fun cmd => JS.startsWith (JS.toLowerCase cmd) (normalize "") = true)
            validCommands.
Proof.
  intros H. split.
  - unfold handleKeyDown. now rewrite H.
  - repeat constructor.
Qed.

Lemma tab_on_empty_buffer_witness :
  currentInput mounted = Some ""
  /\ handleKeyDown clock Tab mounted = Some mounted
  /\ Forall (fun cmd => JS.startsWith (JS.toLowerCase cmd) (normalize "") = true)
            validCommands.
Proof.
  split; [reflexivity |].
  exact (tab_on_empty_buffer clock mounted eq_refl).
Defined.

End TerminalSpec.


(* ===================================================================== *)
(** * Facts about the string primitives                                   *)
(* ===================================================================== *)

Module JSFacts.
Import JS.

Lemma app_assoc (a b c : string) : (a +:+ b) +:+ c = a +:+ (b +:+ c).
Proof. induction a as [| x a IH]; cbn; [reflexivity | now rewrite IH]. Qed.

Lemma app_nil_r (a : string) : a +:+ "" = a.
Proof. induction a as [| x a IH]; cbn; [reflexivity | now rewrite IH]. Qed.

Lemma length_app (a b : string) :
  String.length (a +:+ b) = (String.length a + String.length b)%nat.
Proof. induction a as [| x a IH]; cbn; [reflexivity | now rewrite IH]. Qed.

Lemma take_app (a b : string) : take (String.length a) (a +:+ b) = a.
Proof. induction a as [| x a IH]; cbn; [now destruct b | now rewrite IH]. Qed.

Lemma drop_app (a b : string) : drop (String.length a) (a +:+ b) = b.
Proof. induction a as [| x a IH]; cbn; [now destruct b | exact IH]. Qed.

Lemma take_all (a : string) : take (String.length a) a = a.
Proof. rewrite <- (app_nil_r a) at 2. apply take_app. Qed.

(** A prefix splits the string. *)
Lemma startsWith_split (s p : string) :
  startsWith s p = true -> s = p +:+ drop (String.length p) s.
Proof.
  revert s. induction p as [| a p IH]; intros s H; [now destruct s |].
  destruct s as [| b s]; [discriminate H |].
  cbn in H. apply andb_true_iff in H as [Hab Hp].
  apply Ascii.eqb_eq in Hab. subst b. cbn. f_equal. now apply IH.
Qed.

(** ** Searching for a code unit *)

Lemma indexOf_cons (c b : ascii) (r : string) :
  (indexOf (String b r) c <? 0) = negb (Ascii.eqb b c) && (indexOf r c <? 0).
Proof.
  cbn [indexOf]. destruct (Ascii.eqb b c); [reflexivity |]. cbn [negb andb].
  destruct (Z.ltb_spec (indexOf r c) 0) as [H | H]; [reflexivity |].
  apply Z.ltb_ge. lia.
Qed.

Lemma indexOf_app_neg (c : ascii) (a b : string) :
  (indexOf (a +:+ b) c <? 0) = (indexOf a c <? 0) && (indexOf b c <? 0).
Proof.
  induction a as [| x a IH]; [reflexivity |].
  cbn [String.append]. rewrite !indexOf_cons, IH. apply andb_assoc.
Qed.

(** The first occurrence of [c] in [k c x] is right after [k] when [k]
    has none. *)
Lemma indexOf_app (c : ascii) (k x : string) :
  (indexOf k c <? 0) = true ->
  indexOf (k +:+ String c x) c = Z.of_nat (String.length k).
Proof.
  induction k as [| b k IH]; intros H.
  - cbn. now rewrite Ascii.eqb_refl.
  - rewrite indexOf_cons in H. apply andb_true_iff in H as [Hb Hk].
    cbn [String.append indexOf String.length].
    destruct (Ascii.eqb b c); [discriminate Hb |].
    rewrite (IH Hk).
    destruct (Z.ltb_spec (Z.of_nat (String.length k)) 0); lia.
Qed.

(** ** Slices *)

Lemma slice_prefix (k x : string) :
  slice (k +:+ x) 0 (Some (Z.of_nat (String.length k))) = k.
Proof.
  unfold slice. rewrite length_app.
  destruct (Z.ltb_spec 0 0) as [| _]; [lia |].
  destruct (Z.ltb_spec (Z.of_nat (String.length k)) 0) as [| _]; [lia |].
  rewrite Z.min_l by lia. rewrite Z.min_l by lia.
  replace (Z.to_nat (Z.max (Z.of_nat (String.length k) - 0) 0))
    with (String.length k) by lia.
  cbn [Z.to_nat drop]. apply take_app.
Qed.

Lemma slice_suffix (k x : string) (c : ascii) :
  slice (k +:+ String c x) (Z.of_nat (String.length k) + 1) None = x.
Proof.
  unfold slice. rewrite length_app. cbn [String.length].
  destruct (Z.ltb_spec (Z.of_nat (String.length k) + 1) 0) as [| _]; [lia |].
  rewrite Z.min_l by lia.
  replace (Z.to_nat (Z.of_nat (String.length k) + 1))
    with (String.length (k +:+ chr c))
    by (rewrite length_app; cbn [String.length chr]; lia).
  replace (k +:+ String c x) with ((k +:+ chr c) +:+ x)
    by (now rewrite app_assoc).
  rewrite drop_app.
  match goal with
  | |- take ?n x = x => replace n with (String.length x) by lia
  end.
  apply take_all.
Qed.

(** [slice(1, -1)] drops the first and the last code unit. *)
Lemma slice_inner (a b : ascii) (v : string) :
  slice (String a (v +:+ chr b)) 1 (Some (-1)) = v.
Proof.
  unfold slice. cbn [String.length]. rewrite length_app. cbn [String.length chr].
  destruct (Z.ltb_spec 1 0) as [| _]; [lia |].
  destruct (Z.ltb_spec (-1) 0) as [_ |]; [| lia].
  rewrite Z.min_l by lia. rewrite Z.max_l by lia.
  cbn [Z.to_nat Pos.to_nat Pos.iter_op drop].
  match goal with
  | |- take ?n _ = v => replace n with (String.length v) by lia
  end.
  apply take_app.
Qed.

(** ** Trimming *)

Lemma trimEnd_last (s : string) (c : ascii) :
  isWhiteSpace c = false -> trimEnd (s +:+ chr c) = s +:+ chr c.
Proof.
  intros Hc. induction s as [| x s IH].
  - cbn. now rewrite Hc.
  - cbn [String.append trimEnd]. rewrite IH.
    destruct s; reflexivity.
Qed.

(** Nothing to trim between two code units that are not white space. *)
Lemma trim_between (a b : ascii) (v : string) :
  isWhiteSpace a = false -> isWhiteSpace b = false ->
  trim (String a (v +:+ chr b)) = String a (v +:+ chr b).
Proof.
  intros Ha Hb. unfold trim. cbn [trimStart]. rewrite Ha.
  change (String a (v +:+ chr b)) with (String a v +:+ chr b).
  now apply trimEnd_last.
Qed.

Lemma trim_leading_space (s : string) : trim (String " " s) = trim s.
Proof. reflexivity. Qed.

Lemma isQuote_not_ws (q : ascii) : isQuote q = true -> isWhiteSpace q = false.
Proof.
  unfold isQuote. intros H. apply orb_true_iff in H as [H | H];
    apply Ascii.eqb_eq in H; now subst q.
Qed.

(** ** Prefixes and suffixes *)

Lemma startsWith_nil (s : string) : startsWith s "" = true.
Proof. now destruct s. Qed.

Lemma startsWith_chr (c a : ascii) (s : string) :
  startsWith (String a s) (chr c) = Ascii.eqb c a.
Proof. cbn [startsWith chr]. rewrite startsWith_nil. apply andb_true_r. Qed.

Lemma endsWith_last (s : string) (c : ascii) :
  endsWith (s +:+ chr c) (chr c) = true.
Proof.
  induction s as [| x s IH].
  - cbn. now rewrite Ascii.eqb_refl.
  - cbn [String.append endsWith]. rewrite IH. apply orb_true_r.
Qed.

(** ** Splitting and joining *)

Lemma split_not_nil (c : ascii) (s : string) : split c s <> [].
Proof.
  induction s as [| x s IH]; cbn; [discriminate |].
  destruct (Ascii.eqb x c); [discriminate |].
  destruct (split c s); [contradiction | discriminate].
Qed.

Lemma split_none (c : ascii) (s : string) :
  (indexOf s c <? 0) = true -> split c s = [s].
Proof.
  induction s as [| x s IH]; intros H; [reflexivity |].
  rewrite indexOf_cons in H. apply andb_true_iff in H as [Hx Hs].
  cbn [split]. destruct (Ascii.eqb x c); [discriminate Hx |].
  now rewrite (IH Hs).
Qed.

Lemma split_app (c : ascii) (a x : string) :
  (indexOf a c <? 0) = true ->
  split c (a +:+ String c x) = a :: split c x.
Proof.
  induction a as [| b a IH]; intros H.
  - cbn. now rewrite Ascii.eqb_refl.
  - rewrite indexOf_cons in H. apply andb_true_iff in H as [Hb Ha].
    cbn [String.append split]. destruct (Ascii.eqb b c); [discriminate Hb |].
    now rewrite (IH Ha).
Qed.

Lemma join_cons (sep x : string) (rest : list string) :
  join sep (x :: rest)
  = x +:+ match rest with [] => "" | _ => sep +:+ join sep rest end.
Proof. destruct rest; cbn [join]; [now rewrite app_nil_r | reflexivity]. Qed.

(** Splitting at the separator undoes joining with it, for parts that
    do not contain it. *)
Lemma split_join (c : ascii) (parts : list string) :
  parts <> [] ->
  Forall (fun p => (indexOf p c <? 0) = true) parts ->
  split c (join (chr c) parts) = parts.
Proof.
  intros Hne Hall. induction Hall as [| p rest Hp Hrest IH]; [contradiction |].
  destruct rest as [| p' rest'].
  - cbn [join]. now apply split_none.
  - change (join (chr c) (p :: p' :: rest'))
      with (p +:+ chr c +:+ join (chr c) (p' :: rest')).
    cbn [chr String.append]. rewrite split_app by assumption.
    f_equal. now apply IH.
Qed.

(** ** Quotes at the ends *)

Lemma dropTrailingQuote_last (t : string) (q : ascii) :
  isQuote q = true -> dropTrailingQuote (t +:+ chr q) = t.
Proof.
  intros Hq. induction t as [| x t IH].
  - cbn. now rewrite Hq.
  - cbn [String.append]. destruct t as [| y t].
    + cbn. now rewrite Hq.
    + cbn [String.append dropTrailingQuote] in *. now rewrite IH.
Qed.

Lemma endsWith_chr_cons (x : ascii) (t : string) (c : ascii) :
  t <> "" -> endsWith (String x t) (chr c) = endsWith t (chr c).
Proof.
  intros Ht. cbn [endsWith].
  destruct t as [| y t]; [contradiction |].
  destruct (String.eqb_spec (String x (String y t)) (chr c)) as [E | _];
    [discriminate E | reflexivity].
Qed.

Lemma dropTrailingQuote_id (t : string) :
  endsWith t (chr DQUOTE) = false -> endsWith t (chr SQUOTE) = false ->
  dropTrailingQuote t = t.
Proof.
  induction t as [| x t IH]; intros Hd Hs; [reflexivity |].
  destruct t as [| y t].
  - cbn [dropTrailingQuote]. unfold isQuote.
    destruct (Ascii.eqb_spec x DQUOTE) as [-> | _]; [discriminate Hd |].
    destruct (Ascii.eqb_spec x SQUOTE) as [-> | _]; [discriminate Hs |].
    reflexivity.
  - rewrite endsWith_chr_cons in Hd, Hs by discriminate.
    change (dropTrailingQuote (String x (String y t)))
      with (String x (dropTrailingQuote (String y t))).
    now rewrite IH.
Qed.

End JSFacts.

(* ===================================================================== *)
(** * Properties of the front-matter parser                               *)
(* ===================================================================== *)

Module ParserSpec.
Import JS JSFacts Blog SourceFormat.

Abbreviation nl := (chr LF).

(** ** What a match of the pattern says about the text *)

Lemma ws_then_newline_sound (s rest : string) :
  In rest (ws_then_newline s) ->
  exists w, allWhiteSpace w = true /\ s = w +:+ nl +:+ rest.
Proof.
  induction s as [| c r IH]; cbn; [tauto |].
  destruct (isWhiteSpace c) eqn:Hc; [| cbn; tauto].
  intros H. apply in_app_or in H as [H | H].
  - destruct (IH H) as (w & Hw & ->).
    exists (String c w). cbn. now rewrite Hc, Hw.
  - destruct (Ascii.eqb_spec c LF) as [-> | _]; [| contradiction H].
    destruct H as [<- | []]. now exists EmptyString.
Qed.

Lemma head_In {A} (l : list A) (x : A) : head l = Some x -> In x l.
Proof. destruct l; cbn; [discriminate | intros [= ->]; now left]. Qed.

Lemma closing_sound (s body : string) :
  closing s = Some body ->
  exists w, allWhiteSpace w = true
            /\ s = nl +:+ "---" +:+ w +:+ nl +:+ body.
Proof.
  unfold closing. destruct (startsWith s (String LF "---")) eqn:Hs; [| discriminate].
  intros H. apply head_In, ws_then_newline_sound in H as (w & Hw & Hd).
  exists w. split; [exact Hw |].
  apply startsWith_split in Hs. cbn [String.length] in Hs.
  rewrite Hd in Hs. exact Hs.
Qed.

Lemma header_then_body_sound (s headerText body : string) :
  header_then_body s = Some (headerText, body) ->
  exists w, allWhiteSpace w = true
            /\ s = headerText +:+ nl +:+ "---" +:+ w +:+ nl +:+ body.
Proof.
  revert headerText. induction s as [| c r IH]; intros h; cbn [header_then_body].
  - destruct (closing "") eqn:Hc; [| discriminate].
    intros [= <- <-]. now apply closing_sound.
  - destruct (closing (String c r)) eqn:Hc.
    + intros [= <- <-]. now apply closing_sound.
    + destruct (header_then_body r) as [[h' b'] |] eqn:Hr; [| discriminate].
      intros [= <- <-]. destruct (IH h' eq_refl) as (w & Hw & ->).
      now exists w.
Qed.

Lemma first_match_some {A B} (f : A -> option B) (ways : list A) (r : B) :
  first_match f ways = Some r -> exists w, In w ways /\ f w = Some r.
Proof.
  induction ways as [| w ways IH]; cbn; [discriminate |].
  destruct (f w) eqn:Hw.
  - intros [= ->]. eauto.
  - intros H. destruct (IH H) as (w' & Hin & Hf). eauto.
Qed.

(** Whatever the pattern matches is a delimited text, and the groups
    are its header and its body. *)
Lemma frontmatterRegex_sound (content headerText body : string) :
  frontmatterRegex content = Some (headerText, body) ->
  exists w1 w2,
    allWhiteSpace w1 = true /\ allWhiteSpace w2 = true
    /\ content = "---" +:+ w1 +:+ nl +:+ headerText
                 +:+ nl +:+ "---" +:+ w2 +:+ nl +:+ body.
Proof.
  unfold frontmatterRegex.
  destruct (startsWith content "---") eqn:Hs; [| discriminate].
  intros H. apply first_match_some in H as (r & Hin & Hr).
  apply ws_then_newline_sound in Hin as (w1 & Hw1 & Hd).
  apply header_then_body_sound in Hr as (w2 & Hw2 & ->).
  exists w1, w2. repeat split; try assumption.
  apply startsWith_split in Hs. cbn [String.length] in Hs.
  rewrite Hd in Hs. exact Hs.
Qed.

(** C9, as amended.  The parser is a total function, and on every text
    that is not delimited, that is, not of the form [---], white space,
    line feed, header, line feed, [---], white space, line feed, body,
    it returns the empty header and the whole text, unchanged, as the
    body.  White space after the three hyphens of a delimiter line does
    not make the text one of these. *)
Theorem absent_front_matter_is_not_an_error (text : string) :
  ~ delimited text ->
  parseMarkdownWithFrontmatter text = {| frontmatter := ∅; content := text |}.
Proof.
  intros Hnot. unfold parseMarkdownWithFrontmatter.
  destruct (frontmatterRegex text) as [[h b] |] eqn:E; [| reflexivity].
  exfalso. apply Hnot.
  apply frontmatterRegex_sound in E as (w1 & w2 & Hw1 & Hw2 & E).
  now exists w1, h, w2, b.
Qed.

Lemma absent_front_matter_is_not_an_error_witness :
  ~ delimited ("# Notes" +:+ nl +:+ "--- no header here")
  /\ parseMarkdownWithFrontmatter ("# Notes" +:+ nl +:+ "--- no header here")
     = {| frontmatter := ∅;
          content := "# Notes" +:+ nl +:+ "--- no header here" |}.
Proof.
  assert (H : ~ delimited ("# Notes" +:+ nl +:+ "--- no header here")).
  { intros (w1 & h & w2 & b & _ & _ & E). cbn in E. discriminate E. }
  split; [exact H |].
  exact (absent_front_matter_is_not_an_error _ H).
Defined.

(** C9, as stated, fails on a text whose delimiter lines are malformed:
    each is [---] followed by a space, so no line of the text is exactly
    [---]; the parser reads the header all the same and returns the
    title and the body, not the whole text. *)
Lemma padded_delimiters_are_read :
  ~ delimitedByExactLines paddedDelimiters
  /\ frontmatter (parseMarkdownWithFrontmatter paddedDelimiters) !! "title"
     = Some (VStr "A")
  /\ content (parseMarkdownWithFrontmatter paddedDelimiters) = "BODY"
  /\ parseMarkdownWithFrontmatter paddedDelimiters
     <> {| frontmatter := ∅; content := paddedDelimiters |}.
Proof.
  split; [| split; [| split]].
  - intros (headerLines & bodyLines & E). vm_compute in E. discriminate E.
  - vm_compute. reflexivity.
  - reflexivity.
  - intros E. apply (f_equal content) in E. vm_compute in E. discriminate E.
Qed.

(** The form the specification words is, when a line feed follows its
    closing line, a case of the form the pattern reads: the two differ
    on white space after the hyphens, which the pattern allows, and on a
    closing line that ends the text, which the pattern does not read. *)
Lemma exact_lines_are_delimited (headerText body : string) :
  delimited ("---" +:+ nl +:+ headerText +:+ nl +:+ "---" +:+ nl +:+ body).
Proof. now exists "", headerText, "", body. Qed.

(** ** The pattern on a rendered blob *)

Lemma head_ws_then_newline (s : string) :
  head (ws_then_newline s) = afterBlankLines s.
Proof.
  induction s as [| c r IH]; [reflexivity |].
  cbn [ws_then_newline afterBlankLines].
  destruct (isWhiteSpace c); [| reflexivity].
  rewrite <- IH. destruct (ws_then_newline r); [| reflexivity].
  cbn. now destruct (Ascii.eqb c LF).
Qed.

(** The white space that opens a header line has no line feed. *)
Lemma ws_then_newline_keyed (line x : string) :
  keyed line -> ws_then_newline (line +:+ x) = [].
Proof.
  unfold keyed, lacks. intros [Hlf Hcolon].
  induction line as [| c l IH]; [discriminate Hcolon |].
  rewrite indexOf_cons in Hlf, Hcolon.
  apply andb_true_iff in Hlf as [Hc Hl].
  cbn [String.append ws_then_newline].
  destruct (isWhiteSpace c) eqn:Hws; [| reflexivity].
  destruct (Ascii.eqb c LF); [discriminate Hc |].
  destruct (Ascii.eqb_spec c ":") as [-> | _]; [discriminate Hws |].
  cbn [negb andb] in Hcolon. now rewrite IH.
Qed.

(** A prefix without colon of a text that opens with a keyed line is a
    prefix of that line. *)
Lemma startsWith_keyed (p line x : string) :
  lacks ":" p = true -> lacks ":" line = false ->
  startsWith (line +:+ x) p = true -> startsWith line p = true.
Proof.
  unfold lacks. revert line.
  induction p as [| a p IH]; intros line Hp Hline H; [now destruct line |].
  destruct line as [| b l]; [discriminate Hline |].
  rewrite indexOf_cons in Hp, Hline. apply andb_true_iff in Hp as [Ha Hp].
  cbn [String.append startsWith] in *.
  apply andb_true_iff in H as [Hab H].
  apply Ascii.eqb_eq in Hab. subst b. rewrite Ascii.eqb_refl.
  rewrite Ha in Hline. cbn [andb] in *. now apply IH.
Qed.

(** A header line is never taken for the closing line. *)
Lemma closing_keyed (line x : string) :
  keyed line -> closing (String LF (line +:+ x)) = None.
Proof.
  intros [Hlf Hcolon]. unfold closing. cbn [startsWith].
  rewrite Ascii.eqb_refl. cbn [andb].
  destruct (startsWith (line +:+ x) "---") eqn:Hs; [| reflexivity].
  apply startsWith_keyed in Hs; [| reflexivity | exact Hcolon].
  apply startsWith_split in Hs. cbn [String.length] in Hs.
  set (rest := drop 3 line) in Hs. rewrite Hs.
  change (drop 4 (String LF (("---" +:+ rest) +:+ x))) with (rest +:+ x).
  rewrite ws_then_newline_keyed; [reflexivity |].
  unfold keyed, lacks in *. rewrite Hs in Hlf, Hcolon.
  rewrite indexOf_app_neg in Hlf, Hcolon.
  apply andb_true_iff in Hlf as [_ Hlf]. now split.
Qed.

Lemma header_then_body_here (s body : string) :
  closing s = Some body -> header_then_body s = Some ("", body).
Proof. intros H. destruct s; cbn [header_then_body]; now rewrite H. Qed.

Lemma header_then_body_next (c : ascii) (r : string) :
  closing (String c r) = None ->
  header_then_body (String c r)
  = match header_then_body r with
    | Some (h, b) => Some (String c h, b)
    | None => None
    end.
Proof. intros H. cbn [header_then_body]. now rewrite H. Qed.

(** The closing line, followed by the body. *)
Lemma closing_line (body : string) :
  closing (nl +:+ "---" +:+ nl +:+ body) = Some (stripBlankLines body).
Proof.
  unfold closing, stripBlankLines. rewrite <- head_ws_then_newline.
  cbn [chr String.append startsWith drop ws_then_newline].
  rewrite !Ascii.eqb_refl. change (isWhiteSpace LF) with true.
  destruct body; cbn [startsWith andb]; cbv iota;
    now destruct (ws_then_newline _).
Qed.

(** The lazy group runs through a text without line feed. *)
Lemma header_then_body_skip (l x : string) :
  lacks LF l = true ->
  header_then_body (l +:+ x)
  = match header_then_body x with
    | Some (h, b) => Some (l +:+ h, b)
    | None => None
    end.
Proof.
  unfold lacks. induction l as [| c l IH]; intros H.
  - cbn [String.append]. now destruct (header_then_body x) as [[h b] |].
  - rewrite indexOf_cons in H. apply andb_true_iff in H as [Hc Hl].
    cbn [String.append]. rewrite header_then_body_next.
    + rewrite (IH Hl). now destruct (header_then_body x) as [[h b] |].
    + unfold closing. cbn [startsWith]. rewrite Ascii.eqb_sym.
      now destruct (Ascii.eqb c LF).
Qed.

Lemma header_then_body_lines (lines : list string) (body : string) :
  lines <> [] -> Forall keyed lines ->
  header_then_body (join nl lines +:+ nl +:+ "---" +:+ nl +:+ body)
  = Some (join nl lines, stripBlankLines body).
Proof.
  intros Hne Hall.
  induction Hall as [| l rest [Hlf Hcolon] Hrest IH]; [contradiction |].
  destruct rest as [| l' rest'].
  - cbn [join]. rewrite header_then_body_skip by exact Hlf.
    rewrite (header_then_body_here _ _ (closing_line body)).
    now rewrite app_nil_r.
  - change (join nl (l :: l' :: rest'))
      with (l +:+ nl +:+ join nl (l' :: rest')).
    rewrite !app_assoc. rewrite header_then_body_skip by exact Hlf.
    change (nl +:+ join nl (l' :: rest') +:+ nl +:+ "---" +:+ nl +:+ body)
      with (String LF (join nl (l' :: rest') +:+ nl +:+ "---" +:+ nl +:+ body)).
    rewrite header_then_body_next.
    + rewrite IH by discriminate. reflexivity.
    + rewrite join_cons, app_assoc. apply closing_keyed.
      now inversion Hrest.
Qed.

(** On a blob with at least one header line the pattern matches, the
    first group is the header as written, and the second is the body
    less its leading blank lines. *)
Lemma frontmatterRegex_blob (lines : list string) (body : string) :
  lines <> [] -> Forall keyed lines ->
  frontmatterRegex
    ("---" +:+ nl +:+ join nl lines +:+ nl +:+ "---" +:+ nl +:+ body)
  = Some (join nl lines, stripBlankLines body).
Proof.
  intros Hne Hall. unfold frontmatterRegex.
  set (text := join nl lines +:+ nl +:+ "---" +:+ nl +:+ body).
  change ("---" +:+ nl +:+ text) with ("---" +:+ String LF text).
  cbn [String.append startsWith drop]. rewrite Ascii.eqb_refl. cbn [andb].
  cbn [ws_then_newline]. change (isWhiteSpace LF) with true. cbv iota.
  rewrite Ascii.eqb_refl.
  assert (ws_then_newline text = []) as ->.
  { unfold text. destruct lines as [| l rest]; [contradiction |].
    rewrite join_cons, app_assoc. apply ws_then_newline_keyed.
    now inversion Hall. }
  cbn [app first_match]. unfold text.
  now rewrite header_then_body_lines.
Qed.

(** ** One header line *)

Lemma quoted_wrapped (q : ascii) (v : string) :
  isQuote q = true -> quoted (String q (v +:+ chr q)) = true.
Proof.
  intros Hq. unfold quoted. rewrite !startsWith_chr.
  change (String q (v +:+ chr q)) with (String q v +:+ chr q).
  unfold isQuote in Hq. apply orb_true_iff in Hq as [H | H];
    apply Ascii.eqb_eq in H; subst q; rewrite endsWith_last.
  - reflexivity.
  - apply orb_true_r.
Qed.

Lemma wrapped_lacks (c a b : ascii) (t : string) :
  Ascii.eqb a c = false -> Ascii.eqb b c = false -> lacks c t = true ->
  lacks c (String a (t +:+ chr b)) = true.
Proof.
  unfold lacks. intros Ha Hb Ht.
  rewrite indexOf_cons, indexOf_app_neg, Ht. unfold chr.
  rewrite indexOf_cons, Ha, Hb. reflexivity.
Qed.

Lemma quote_is_not (q c : ascii) :
  isQuote q = true -> isQuote c = false -> Ascii.eqb q c = false.
Proof.
  intros Hq Hc. destruct (Ascii.eqb_spec q c) as [-> |]; congruence.
Qed.

(** A rendered item contains no comma and no line feed. *)
Lemma renderItem_lacks (c : ascii) (i : Item) :
  isQuote c = false ->
  item_ok i = true -> lacks c (itemText i) = true ->
  lacks c (renderItem i) = true.
Proof.
  intros Hc Hi Ht. destruct i as [t | q t]; [exact Ht |].
  cbn [renderItem itemText item_ok] in *.
  apply andb_true_iff in Hi as [Hi _]. apply andb_true_iff in Hi as [Hq _].
  apply wrapped_lacks; [| | exact Ht]; now apply quote_is_not.
Qed.

Lemma item_ok_lacks (i : Item) :
  item_ok i = true ->
  lacks "," (itemText i) = true /\ lacks LF (itemText i) = true.
Proof.
  destruct i as [t | q t]; cbn [item_ok itemText]; intros H;
    repeat (apply andb_true_iff in H as [H ?]); auto.
Qed.

(** The item comes back from its rendering. *)
Lemma item_recovered (i : Item) :
  item_ok i = true -> replaceQuoteEnds (trim (renderItem i)) = itemText i.
Proof.
  destruct i as [t | q t]; cbn [item_ok renderItem itemText]; intros H.
  - apply andb_true_iff in H as [H Hq]. apply andb_true_iff in H as [_ Htrim].
    apply String.eqb_eq in Htrim. rewrite Htrim.
    unfold noQuoteAtEnds in Hq.
    repeat (apply andb_true_iff in Hq as [Hq ?]).
    repeat match goal with
           | H : negb _ = true |- _ => apply negb_true_iff in H
           end.
    destruct t as [| c r]; [reflexivity |].
    unfold replaceQuoteEnds, isQuote.
    rewrite startsWith_chr in *.
    rewrite (Ascii.eqb_sym c DQUOTE), (Ascii.eqb_sym c SQUOTE).
    match goal with
    | H1 : Ascii.eqb DQUOTE c = false, H2 : Ascii.eqb SQUOTE c = false |- _ =>
        rewrite H1, H2
    end.
    cbn [orb]. now apply dropTrailingQuote_id.
  - apply andb_true_iff in H as [H _]. apply andb_true_iff in H as [Hq _].
    rewrite trim_between by now apply isQuote_not_ws.
    unfold replaceQuoteEnds. rewrite Hq. now apply dropTrailingQuote_last.
Qed.

Abbreviation decodeItem := (fun item => replaceQuoteEnds (trim item)).

(** Splitting the inside of the brackets at the commas and decoding
    each part gives the items back. *)
Lemma items_recovered (items : list Item) :
  items <> [] -> forallb item_ok items = true ->
  map decodeItem (split "," (join ", " (map renderItem items)))
  = map itemText items.
Proof.
  intros Hne Hall. induction items as [| i rest IH]; [contradiction |].
  cbn [forallb] in Hall. apply andb_true_iff in Hall as [Hi Hrest].
  assert (Hcomma : (indexOf (renderItem i) "," <? 0) = true).
  { apply (renderItem_lacks "," i); [reflexivity | exact Hi |].
    now apply item_ok_lacks. }
  destruct rest as [| i' rest'].
  - cbn [map join]. rewrite split_none by exact Hcomma.
    cbn [map]. now rewrite item_recovered.
  - change (join ", " (map renderItem (i :: i' :: rest')))
      with (renderItem i
            +:+ String "," (String " " (join ", " (map renderItem (i' :: rest'))))).
    rewrite split_app by exact Hcomma.
    cbn [map]. rewrite item_recovered by exact Hi. f_equal.
    specialize (IH ltac:(discriminate) Hrest).
    cbn [split]. change (Ascii.eqb " " ",") with false. cbv iota.
    cbn [map] in IH |- *.
    destruct (split "," (join ", " (renderItem i' :: map renderItem rest')))
      as [| w ws] eqn:Hsplit; [now apply split_not_nil in Hsplit |].
    cbn [map] in *. now rewrite trim_leading_space.
Qed.

(** The parser reads a rendered header line as the entry it was
    rendered from. *)
Lemma parseLine_render (m : gmap string Value) (k : string) (f : Field) :
  key_ok k = true -> field_ok f = true ->
  parseLine m (renderLine (k, f)) = <[k := fieldValue f]> m.
Proof.
  intros Hk Hf. unfold key_ok in Hk.
  repeat (apply andb_true_iff in Hk as [Hk ?]).
  repeat match goal with
         | H : negb _ = true |- _ => apply negb_true_iff in H
         | H : String.eqb (trim _) _ = true |- _ => apply String.eqb_eq in H
         end.
  unfold renderLine, parseLine. cbn [fst snd].
  change (k +:+ ": " +:+ renderField f)
    with (k +:+ String ":" (String " " (renderField f))).
  rewrite indexOf_app by assumption.
  assert ((0 <? Z.of_nat (String.length k)) = true) as ->.
  { destruct k; [discriminate Hk | cbn [String.length]; apply Z.ltb_lt; lia]. }
  rewrite slice_prefix, slice_suffix, trim_leading_space.
  match goal with H : trim k = k |- _ => rewrite H end.
  unfold assign.
  match goal with H : String.eqb k "__proto__" = false |- _ => rewrite H end.
  destruct f as [v | q v | items]; cbn [renderField fieldValue field_ok] in *.
  - repeat (apply andb_true_iff in Hf as [Hf ?]).
    repeat match goal with
           | H : negb _ = true |- _ => apply negb_true_iff in H
           | H : String.eqb (trim _) _ = true |- _ => apply String.eqb_eq in H
           end.
    match goal with H : trim v = v |- _ => rewrite H end.
    match goal with H : quoted v = false |- _ => rewrite H end.
    match goal with
    | H : isBracketed v = false |- _ => unfold isBracketed in H; rewrite H
    end.
    reflexivity.
  - repeat (apply andb_true_iff in Hf as [Hf ?]).
    match goal with H : negb _ = true |- _ => apply negb_true_iff in H end.
    rewrite trim_between by now apply isQuote_not_ws.
    rewrite quoted_wrapped by assumption. rewrite slice_inner.
    match goal with
    | H : isBracketed v = false |- _ => unfold isBracketed in H; rewrite H
    end.
    reflexivity.
  - apply andb_true_iff in Hf as [Hne Hitems].
    change ("[" +:+ join ", " (map renderItem items) +:+ "]")
      with (String "[" (join ", " (map renderItem items) +:+ chr "]")).
    rewrite trim_between by reflexivity.
    set (inside := join ", " (map renderItem items)).
    assert (quoted (String "[" (inside +:+ chr "]")) = false) as ->
      by (unfold quoted; now rewrite !startsWith_chr).
    assert (startsWith (String "[" (inside +:+ chr "]")) "["
            && endsWith (String "[" (inside +:+ chr "]")) "]" = true) as ->.
    { rewrite (startsWith_chr "[").
      change (String "[" (inside +:+ chr "]"))
        with (String "[" inside +:+ chr "]").
      now rewrite (endsWith_last _ "]"). }
    rewrite slice_inner. unfold inside.
    rewrite items_recovered; [reflexivity | | exact Hitems].
    destruct items; [discriminate Hne | discriminate].
Qed.

(** ** The whole header *)

Lemma join_lacks (c : ascii) (sep : string) (parts : list string) :
  lacks c sep = true -> Forall (fun p => lacks c p = true) parts ->
  lacks c (join sep parts) = true.
Proof.
  unfold lacks. intros Hsep Hall.
  induction Hall as [| p rest Hp Hrest IH]; [reflexivity |].
  rewrite join_cons, indexOf_app_neg, Hp. cbn [andb].
  destruct rest; [reflexivity |]. now rewrite indexOf_app_neg, Hsep, IH.
Qed.

Lemma renderField_lacks_LF (f : Field) :
  field_ok f = true -> lacks LF (renderField f) = true.
Proof.
  destruct f as [v | q v | items]; cbn [field_ok renderField]; intros H.
  - now repeat (apply andb_true_iff in H as [H ?]).
  - repeat (apply andb_true_iff in H as [H ?]).
    apply wrapped_lacks; [| | assumption]; now apply quote_is_not.
  - apply andb_true_iff in H as [_ Hitems].
    change ("[" +:+ join ", " (map renderItem items) +:+ "]")
      with (String "[" (join ", " (map renderItem items) +:+ chr "]")).
    apply wrapped_lacks; [reflexivity | reflexivity |].
    apply join_lacks; [reflexivity |].
    apply List.Forall_forall. intros r Hr. apply List.in_map_iff in Hr as (i & <- & Hi).
    rewrite forallb_forall in Hitems.
    apply renderItem_lacks; [reflexivity | now apply Hitems |].
    now apply item_ok_lacks, Hitems.
Qed.

Lemma renderLine_keyed (entry : string * Field) :
  entry_ok entry = true -> keyed (renderLine entry).
Proof.
  destruct entry as [k f]. unfold entry_ok, key_ok. cbn [fst snd]. intros H.
  apply andb_true_iff in H as [Hk Hf].
  repeat (apply andb_true_iff in Hk as [Hk ?]).
  unfold keyed, renderLine, lacks in *. cbn [fst snd].
  rewrite !indexOf_app_neg. split.
  - apply renderField_lacks_LF in Hf. unfold lacks in Hf.
    repeat (apply andb_true_iff; split); try assumption; reflexivity.
  - apply andb_false_r.
Qed.

Lemma fold_parseLine_render (entries : list (string * Field))
    (m : gmap string Value) :
  forallb entry_ok entries = true ->
  fold_left parseLine (map renderLine entries) m
  = fold_left (fun m entry => <[fst entry := fieldValue (snd entry)]> m)
              entries m.
Proof.
  revert m. induction entries as [| [k f] rest IH]; intros m H; [reflexivity |].
  cbn [forallb] in H. apply andb_true_iff in H as [He Hrest].
  unfold entry_ok in He. cbn [fst snd] in He.
  apply andb_true_iff in He as [Hk Hf].
  cbn [map fold_left fst snd]. rewrite parseLine_render by assumption.
  now apply IH.
Qed.

(** The header text of a rendered blob parses to the header mapping of
    its entries. *)
Lemma parseFrontmatterText_render (entries : list (string * Field)) :
  entries <> [] -> forallb entry_ok entries = true ->
  parseFrontmatterText (join nl (map renderLine entries)) = header entries.
Proof.
  intros Hne Hall. unfold parseFrontmatterText, header.
  rewrite split_join.
  - now apply fold_parseLine_render.
  - destruct entries; [contradiction | discriminate].
  - apply List.Forall_forall. intros l Hl. apply List.in_map_iff in Hl as (e & <- & He).
    rewrite forallb_forall in Hall. now apply renderLine_keyed, Hall.
Qed.

(** The parse of a rendered blob. *)
Lemma parse_render (entries : list (string * Field)) (body : string) :
  entries <> [] -> forallb entry_ok entries = true ->
  parseMarkdownWithFrontmatter (render entries body)
  = {| frontmatter := header entries; content := stripBlankLines body |}.
Proof.
  intros Hne Hall. unfold parseMarkdownWithFrontmatter, render.
  rewrite frontmatterRegex_blob.
  - now rewrite parseFrontmatterText_render.
  - destruct entries; [contradiction | discriminate].
  - apply List.Forall_forall. intros l Hl.
    apply List.in_map_iff in Hl as (e & <- & He).
    rewrite forallb_forall in Hall. now apply renderLine_keyed, Hall.
Qed.

Lemma stripBlankLines_id (body : string) :
  opensWithBlankLine body = false -> stripBlankLines body = body.
Proof.
  unfold opensWithBlankLine, stripBlankLines.
  now destruct (afterBlankLines body).
Qed.

(** C8, as amended.  Take a blob made of an opening [---] line, one or
    more header lines [key: value], a closing [---] line and a body,
    where each key is not empty, has no colon, no line feed and no white
    space at either end, and is not [__proto__]; and each value is a
    plain string (trimmed, neither quoted nor bracketed), a string in
    single or double quotes that is not itself bracketed, or a
    bracketed, non-empty list of items separated by comma and space,
    each bare (trimmed, no quote at either end) or in quotes, without
    comma; all without line feed.  Then the parser recovers the header
    exactly: every key maps to its value, with one layer of quotes
    removed and bracketed values split into lists, a later line
    overwriting an earlier one with the same key.  The body it returns
    is the text after the closing line less its leading blank lines: the
    white space that opens it, through the last line feed of that white
    space.  So the body is returned unchanged when it does not open with
    a blank line. *)
Theorem front_matter_round_trip (entries : list (string * Field))
    (body : string) :
  entries <> [] -> forallb entry_ok entries = true ->
  let parsed := parseMarkdownWithFrontmatter (render entries body) in
  frontmatter parsed = header entries
  /\ content parsed = stripBlankLines body
  /\ (opensWithBlankLine body = false -> content parsed = body).
Proof.
  intros Hne Hall parsed. unfold parsed.
  rewrite (parse_render entries body Hne Hall). cbn [frontmatter content].
  repeat split. intros H. now apply stripBlankLines_id.
Qed.

(** The specification's example: the blob reads [---], [title: "A"],
    [tags: [a, b]], [---], [BODY], one per line. *)
Example example_blob :
  render exampleEntries "BODY"
  = "---" +:+ nl +:+ "title: " +:+ chr DQUOTE +:+ "A" +:+ chr DQUOTE +:+ nl
    +:+ "tags: [a, b]" +:+ nl +:+ "---" +:+ nl +:+ "BODY".
Proof. reflexivity. Qed.

Lemma front_matter_round_trip_witness :
  exampleEntries <> []
  /\ forallb entry_ok exampleEntries = true
  /\ frontmatter (parseMarkdownWithFrontmatter (render exampleEntries "BODY"))
     = <["tags" := VArr ["a"; "b"]]> (<["title" := VStr "A"]> ∅)
  /\ content (parseMarkdownWithFrontmatter (render exampleEntries "BODY"))
     = "BODY"
  /\ (opensWithBlankLine "BODY" = false ->
      content (parseMarkdownWithFrontmatter (render exampleEntries "BODY"))
      = "BODY").
Proof.
  assert (Hne : exampleEntries <> []) by discriminate.
  assert (Hok : forallb entry_ok exampleEntries = true) by reflexivity.
  split; [exact Hne |]. split; [exact Hok |].
  exact (front_matter_round_trip exampleEntries "BODY" Hne Hok).
Defined.

(** A post of the site: its five header fields are recovered, and the
    blank line between the header and the heading is dropped. *)
Example secure_api_design_post :
  let parsed :=
    parseMarkdownWithFrontmatter
      (render secureApiDesign
         (nl +:+ "# Essential Security Practices for API Development")) in
  frontmatter parsed !! "date" = Some (VStr "2023-12-20")
  /\ frontmatter parsed !! "tags"
     = Some (VArr ["api"; "security"; "authentication"; "best-practices"])
  /\ content parsed = "# Essential Security Practices for API Development".
Proof.
  cbv zeta. rewrite parse_render by (discriminate || reflexivity).
  repeat split.
Qed.

(** C8, as stated, fails on a post whose body follows a blank line: the
    text after the closing line is a line feed followed by [# Post],
    and the body returned is [# Post] alone. *)
Lemma blank_line_after_header_is_dropped :
  postWithBlankLine
  = "---" +:+ nl +:+ "title: " +:+ chr DQUOTE +:+ "A" +:+ chr DQUOTE +:+ nl
    +:+ "---" +:+ nl +:+ (nl +:+ "# Post")
  /\ content (parseMarkdownWithFrontmatter postWithBlankLine) = "# Post"
  /\ content (parseMarkdownWithFrontmatter postWithBlankLine)
     <> nl +:+ "# Post".
Proof. split; [reflexivity |]. split; [reflexivity | discriminate]. Qed.

End ParserSpec.

(* ===================================================================== *)
(** * Properties of the blog registry                                     *)
(* ===================================================================== *)

Module RegistrySpec.
Import Blog.

Section Order.

Variable getTime : string -> option Z.

Abbreviation insert := (Blog.insert getTime).
Abbreviation sort := (Blog.sort getTime).
Abbreviation SortCompare := (Blog.SortCompare getTime).
Abbreviation notOlder := (Blog.notOlder getTime).
Abbreviation older := (Blog.older getTime).
Abbreviation hasDate := (Blog.hasDate getTime).
Abbreviation dated := (Blog.dated getTime).

(** The comparator on two records whose dates parse. *)
Lemma SortCompare_dated (a b : BlogPost) (ta tb : Z) :
  getTime (date a) = Some ta -> getTime (date b) = Some tb ->
  SortCompare a b = tb - ta.
Proof.
  intros Ha Hb. unfold Blog.SortCompare, compareFn. now rewrite Ha, Hb.
Qed.

Lemma hasDate_time (p : BlogPost) :
  hasDate p -> exists t, getTime (date p) = Some t.
Proof.
  unfold Blog.hasDate. destruct (getTime (date p)) as [t |]; [eauto | tauto].
Qed.

Lemma notOlder_trans (a b c : BlogPost) :
  notOlder a b -> notOlder b c -> notOlder a c.
Proof.
  intros (ta & tb & Ha & Hb & Hab) (tb' & tc & Hb' & Hc & Hbc).
  rewrite Hb in Hb'. injection Hb' as <-.
  exists ta, tc. repeat split; try assumption. lia.
Qed.

(** *** Permutation *)

Lemma insert_perm (x : BlogPost) (l : list BlogPost) :
  Permutation (x :: l) (insert x l).
Proof.
  induction l as [| y l IH]; cbn [Blog.insert]; [reflexivity |].
  destruct (SortCompare x y <=? 0); [reflexivity |].
  rewrite perm_swap. now apply perm_skip.
Qed.

Lemma sort_perm (l : list BlogPost) : Permutation l (sort l).
Proof.
  induction l as [| x l IH]; cbn [Blog.sort]; [reflexivity |].
  rewrite <- insert_perm. now apply perm_skip.
Qed.

(** *** Order *)

Lemma insert_sorted (x : BlogPost) (l : list BlogPost) :
  hasDate x -> Forall hasDate l ->
  StronglySorted notOlder l -> StronglySorted notOlder (insert x l).
Proof.
  intros Hx Hl Hsorted.
  induction Hsorted as [| y l Hsorted IH Hy]; cbn [Blog.insert].
  - repeat constructor.
  - apply List.Forall_cons_iff in Hl as [Hdy Hl].
    destruct (hasDate_time x Hx) as (tx & Htx).
    destruct (hasDate_time y Hdy) as (ty & Hty).
    rewrite (SortCompare_dated x y tx ty Htx Hty).
    destruct (Z.leb_spec (ty - tx) 0) as [Hle | Hgt].
    + assert (Hxy : notOlder x y) by (exists tx, ty; repeat split; auto; lia).
      constructor; [now constructor |].
      constructor; [exact Hxy |].
      eapply List.Forall_impl; [| exact Hy].
      intros z Hz. now apply (notOlder_trans x y z).
    + constructor; [now apply IH |].
      eapply Permutation_Forall; [apply insert_perm |].
      constructor; [| exact Hy].
      exists ty, tx. repeat split; auto; lia.
Qed.

Lemma sort_sorted (l : list BlogPost) :
  Forall hasDate l -> StronglySorted notOlder (sort l).
Proof.
  induction l as [| x l IH]; intros H; cbn [Blog.sort]; [constructor |].
  apply List.Forall_cons_iff in H as [Hx Hl].
  apply insert_sorted; [exact Hx | | now apply IH].
  eapply Permutation_Forall; [apply sort_perm | exact Hl].
Qed.

(** *** Stability *)

(** An inserted record moves only past records of another date. *)
Lemma filter_insert (t : Z) (x : BlogPost) (l : list BlogPost) :
  List.filter (dated t) (insert x l) = List.filter (dated t) (x :: l).
Proof.
  induction l as [| y l IH]; cbn [Blog.insert]; [reflexivity |].
  destruct (Z.leb_spec (SortCompare x y) 0) as [_ | Hgt]; [reflexivity |].
  cbn [List.filter] in *. rewrite IH.
  unfold Blog.SortCompare, compareFn, Blog.dated in *.
  destruct (getTime (date y)) as [ty |]; [| lia].
  destruct (getTime (date x)) as [tx |]; [| lia].
  destruct (Z.eqb_spec tx t), (Z.eqb_spec ty t); try reflexivity. lia.
Qed.

Lemma filter_sort (t : Z) (l : list BlogPost) :
  List.filter (dated t) (sort l) = List.filter (dated t) l.
Proof.
  induction l as [| x l IH]; cbn [Blog.sort]; [reflexivity |].
  rewrite filter_insert. cbn [List.filter]. now rewrite IH.
Qed.

(** *** The order is determined

    Two arrangements of the same records that are both ordered by date
    descending and both keep the records of each date in the same order
    are equal.  So on records whose dates parse every stable sort returns
    what [sort] returns, and the choice of insertion is immaterial. *)

Lemma dated_hasDate (t : Z) (p : BlogPost) :
  dated t p = true <-> getTime (date p) = Some t.
Proof.
  unfold Blog.dated. destruct (getTime (date p)) as [t' |].
  - rewrite Z.eqb_eq. split; [now intros -> | now intros [= ->]].
  - split; discriminate.
Qed.

Lemma sorted_stable_unique (l1 l2 : list BlogPost) :
  StronglySorted notOlder l1 -> StronglySorted notOlder l2 ->
  Forall hasDate l1 -> Forall hasDate l2 ->
  (forall t, List.filter (dated t) l1 = List.filter (dated t) l2) ->
  l1 = l2.
Proof.
  intros H1. revert l2.
  induction H1 as [| x l1 H1 IH Hx]; intros l2 H2 Hd1 Hd2 Hsame.
  - destruct l2 as [| y l2]; [reflexivity |]. exfalso.
    apply List.Forall_cons_iff in Hd2 as [Hy _].
    destruct (hasDate_time y Hy) as (ty & Hty).
    specialize (Hsame ty). cbn [List.filter] in Hsame.
    apply dated_hasDate in Hty. rewrite Hty in Hsame. discriminate Hsame.
  - apply List.Forall_cons_iff in Hd1 as [Hdx Hd1].
    destruct (hasDate_time x Hdx) as (tx & Htx).
    destruct l2 as [| y l2].
    + specialize (Hsame tx). cbn [List.filter] in Hsame.
      apply dated_hasDate in Htx. rewrite Htx in Hsame. discriminate Hsame.
    + apply StronglySorted_inv in H2 as [H2 Hy].
      apply List.Forall_cons_iff in Hd2 as [Hdy Hd2].
      destruct (hasDate_time y Hdy) as (ty & Hty).
      rewrite List.Forall_forall in Hx, Hy.
      assert (Hxy : tx = ty).
      { pose proof (Hsame tx) as Sx. pose proof (Hsame ty) as Sy.
        cbn [List.filter] in Sx, Sy.
        rewrite (proj2 (dated_hasDate tx x) Htx) in Sx.
        rewrite (proj2 (dated_hasDate ty y) Hty) in Sy.
        destruct (Z.eq_dec tx ty) as [| Hne]; [assumption | exfalso].
        assert (Hxin : In x l2).
        { assert (Hin : In x (List.filter (dated tx) (y :: l2)))
            by (cbn [List.filter]; rewrite <- Sx; now left).
          apply filter_In in Hin as [[-> | Hin] _]; [congruence | exact Hin]. }
        assert (Hyin : In y l1).
        { assert (Hin : In y (List.filter (dated ty) (x :: l1)))
            by (cbn [List.filter]; rewrite Sy; now left).
          apply filter_In in Hin as [[-> | Hin] _]; [congruence | exact Hin]. }
        destruct (Hx y Hyin) as (a & b & Ha & Hb & Hle).
        destruct (Hy x Hxin) as (a' & b' & Ha' & Hb' & Hle').
        rewrite Htx in Ha, Hb'. rewrite Hty in Hb, Ha'.
        injection Ha as <-. injection Hb as <-.
        injection Ha' as <-. injection Hb' as <-. lia. }
      subst ty.
      assert (Heq : x = y).
      { specialize (Hsame tx). cbn [List.filter] in Hsame.
        rewrite (proj2 (dated_hasDate tx x) Htx) in Hsame.
        rewrite (proj2 (dated_hasDate tx y) Hty) in Hsame.
        now injection Hsame. }
      subst y. f_equal.
      apply IH; try assumption.
      intros t. specialize (Hsame t). cbn [List.filter] in Hsame.
      destruct (dated t x); [now injection Hsame | exact Hsame].
Qed.

(** *** The two ends *)

Lemma older_not_notOlder (a b : BlogPost) : older a b -> ~ notOlder a b.
Proof.
  intros (ta & tb & Ha & Hb & Hlt) (ta' & tb' & Ha' & Hb' & Hle).
  rewrite Ha in Ha'. rewrite Hb in Hb'.
  injection Ha' as <-. injection Hb' as <-. lia.
Qed.

Lemma sorted_head (a : BlogPost) (l : list BlogPost) :
  StronglySorted notOlder l -> In a l ->
  (forall p, In p l -> p = a \/ older p a) ->
  head l = Some a.
Proof.
  intros Hsorted Hin Hnewest. destruct l as [| h l]; [contradiction Hin |].
  cbn [head]. f_equal.
  destruct (Hnewest h (or_introl eq_refl)) as [-> | Hold]; [reflexivity |].
  destruct Hin as [-> | Hin]; [reflexivity |].
  apply StronglySorted_inv in Hsorted as [_ Hall].
  rewrite List.Forall_forall in Hall.
  now destruct (older_not_notOlder h a Hold (Hall a Hin)).
Qed.

Lemma sorted_last (c : BlogPost) (l : list BlogPost) :
  StronglySorted notOlder l -> In c l ->
  (forall p, In p l -> p = c \/ older c p) ->
  last l = Some c.
Proof.
  intros Hsorted. induction Hsorted as [| y l Hsorted IH Hy];
    intros Hin Holdest; [contradiction Hin |].
  destruct l as [| z l].
  - destruct Hin as [-> | []]. reflexivity.
  - change (last (y :: z :: l)) with (last (z :: l)).
    apply IH; [| intros p Hp; apply Holdest; now right].
    destruct Hin as [-> | Hin]; [| exact Hin].
    destruct (Holdest z (or_intror (or_introl eq_refl))) as [-> | Hold];
      [now left |].
    exfalso. rewrite List.Forall_forall in Hy.
    exact (older_not_notOlder c z Hold (Hy z (or_introl eq_refl))).
Qed.

(** C2, as amended.  For every list of records whose dates all
    parse, the registry holds the same records ordered by date
    descending, and the sort is stable: the records of one date keep
    their relative order.  In particular a record strictly newer than
    all the others comes first, and a record strictly older than all
    the others comes last. *)
Theorem registry_sorted_by_date_descending (posts : list BlogPost) :
  Forall hasDate posts ->
  let registry := sortByDate getTime posts in
  Permutation posts registry
  /\ StronglySorted notOlder registry
  /\ (forall t, List.filter (dated t) registry = List.filter (dated t) posts)
  /\ (forall a, In a posts ->
                (forall p, In p posts -> p = a \/ older p a) ->
                head registry = Some a)
  /\ (forall c, In c posts ->
                (forall p, In p posts -> p = c \/ older c p) ->
                last registry = Some c).
Proof.
  intros Hdates registry. unfold sortByDate in registry.
  assert (Hperm : Permutation posts registry) by apply sort_perm.
  assert (Hsorted : StronglySorted notOlder registry)
    by now apply sort_sorted.
  assert (Hin : forall p, In p registry -> In p posts)
    by (intros p; apply Permutation_in; now symmetry).
  repeat split; try assumption.
  - intros t. apply filter_sort.
  - intros a Ha Hnewest. apply sorted_head; auto.
    now apply (Permutation_in _ Hperm).
  - intros c Hc Holdest. apply sorted_last; auto.
    now apply (Permutation_in _ Hperm).
Qed.

End Order.

(** The three posts of the site, out of order, under the date-only
    format: the post of 2024-01-15 comes first and the post of
    2023-12-20 comes last. *)
Example three_posts :
  sortByDate isoDate [optimizing; securing; building]
  = [building; optimizing; securing].
Proof. reflexivity. Qed.

Lemma registry_sorted_by_date_descending_witness :
  Forall (hasDate isoDate) [optimizing; securing; building]
  /\ let registry := sortByDate isoDate [optimizing; securing; building] in
     Permutation [optimizing; securing; building] registry
     /\ StronglySorted (notOlder isoDate) registry
     /\ (forall t, List.filter (dated isoDate t) registry
                   = List.filter (dated isoDate t)
                       [optimizing; securing; building])
     /\ (forall a, In a [optimizing; securing; building] ->
                   (forall p, In p [optimizing; securing; building] ->
                              p = a \/ older isoDate p a) ->
                   head registry = Some a)
     /\ (forall c, In c [optimizing; securing; building] ->
                   (forall p, In p [optimizing; securing; building] ->
                              p = c \/ older isoDate c p) ->
                   last registry = Some c).
Proof.
  assert (H : Forall (hasDate isoDate) [optimizing; securing; building])
    by (repeat constructor; discriminate).
  split; [exact H |].
  exact (registry_sorted_by_date_descending isoDate
           [optimizing; securing; building] H).
Defined.

(** C2, as stated, fails on a record without date: its date is the
    empty string, whose time value is NaN, so the comparator answers NaN
    against every other record and the sort leaves the record where it
    was, on top of a dated one, instead of moving it to the bottom. *)
Lemma undated_post_does_not_sink :
  date undated = ""
  /\ isoDate (date undated) = None
  /\ compareFn isoDate undated building = None
  /\ compareFn isoDate building undated = None
  /\ sortByDate isoDate [undated; building] = [undated; building]
  /\ last (sortByDate isoDate [undated; building]) <> Some undated.
Proof. repeat split; discriminate. Qed.

End RegistrySpec.

(* ===================================================================== *)
(** * Properties of the session under sequences of events                 *)
(* ===================================================================== *)

Module InteractionSpec.
Import Terminal TerminalSpec Interaction.

(** Typing an input and pressing Enter, in one step. *)
Lemma submit_steps clock n input rest s :
  steps clock n (Edit input :: Press Enter :: rest) s
  = steps clock (S (S n)) rest
      (run (andThen (executeCommand (clock (S n)) input)
                    (setCurrentInput (Some "")))
           (onChange input s)).
Proof. reflexivity. Qed.

(** What one submission does to everything but the scrollback. *)
Lemma submit_effect now input s :
  let s' := run (andThen (executeCommand now input)
                         (setCurrentInput (Some "")))
                (onChange input s) in
  commandHistory s' = commandHistory s ++ [input]
  /\ historyIndex s' = -1
  /\ currentInput s' = Some ""
  /\ currentPage s'
     = match target input with Some p => p | None => currentPage s end.
Proof.
  destruct s as [buffer lines page commands index].
  unfold executeCommand, target. set (cmd := normalize input).
  repeat (match goal with
          | |- context [String.eqb cmd ?name] =>
              destruct (String.eqb_spec cmd name)
          end; try congruence);
    unfold onChange; apply_updates; auto.
Qed.

Lemma lastTarget_from (inputs : list string) (found : option Page) :
  fold_left
    (fun found input =>
       match target input with Some p => Some p | None => found end)
    inputs found
  = match lastTarget inputs with Some p => Some p | None => found end.
Proof.
  unfold lastTarget. revert found.
  induction inputs as [| c cs IH]; intros found; [reflexivity |].
  cbn [fold_left]. rewrite IH. rewrite (IH (match target c with
                                            | Some p => Some p
                                            | None => None
                                            end)).
  destruct (fold_left _ cs None); [reflexivity |].
  now destruct (target c).
Qed.

(** A run of submissions never raises, and its effect on everything but
    the scrollback. *)
Lemma submissions_effect clock n inputs s :
  exists s',
    steps clock n (submissions inputs) s = Some s'
    /\ commandHistory s' = commandHistory s ++ inputs
    /\ currentPage s'
       = match lastTarget inputs with Some p => p | None => currentPage s end
    /\ (inputs <> [] -> historyIndex s' = -1 /\ currentInput s' = Some "").
Proof.
  revert n s. induction inputs as [| c cs IH]; intros n s.
  - exists s. cbn. rewrite app_nil_r. repeat split; congruence.
  - change (submissions (c :: cs))
      with (Edit c :: Press Enter :: submissions cs).
    rewrite submit_steps.
    destruct (submit_effect (clock (S n)) c s) as (Hch & Hi & Hb & Hp).
    set (s1 := run _ _) in *.
    destruct (IH (S (S n)) s1) as (s' & Hsteps & Hch' & Hp' & Hrest).
    exists s'. split; [exact Hsteps |]. split; [| split].
    + rewrite Hch', Hch, <- app_assoc. reflexivity.
    + rewrite Hp', Hp. unfold lastTarget at 2. cbn [fold_left].
      rewrite lastTarget_from.
      destruct (lastTarget cs); [reflexivity |]. now destruct (target c).
    + intros _. destruct cs as [| c' cs'].
      * cbn in Hsteps. injection Hsteps as <-. now split.
      * apply Hrest. discriminate.
Qed.

(** X1.  The command history records the submitted inputs, raw and in
    order: after any run of submissions it is the old history followed
    by the inputs; no submission raises; and after at least one the
    recall cursor is the sentinel and the buffer is empty. *)
Theorem submissions_are_recorded_in_order clock n inputs s :
  exists s',
    steps clock n (submissions inputs) s = Some s'
    /\ commandHistory s' = commandHistory s ++ inputs
    /\ (inputs <> [] -> historyIndex s' = -1 /\ currentInput s' = Some "").
Proof.
  destruct (submissions_effect clock n inputs s) as (s' & H1 & H2 & _ & H4).
  now exists s'.
Qed.

(** X2.  The active view after a run of submissions is the target of the
    last navigating command among them (projects, blog or home, up to
    case and surrounding white space), and the view before the run when
    there is none. *)
Theorem active_view_follows_last_navigation clock n inputs s :
  exists s',
    steps clock n (submissions inputs) s = Some s'
    /\ currentPage s'
       = match lastTarget inputs with Some p => p | None => currentPage s end.
Proof.
  destruct (submissions_effect clock n inputs s) as (s' & H1 & _ & H3 & _).
  now exists s'.
Qed.

(** The scenario of a visit to the blog and back. *)
Example blog_then_home :
  lastTarget ["whoami"; " Blog "; "ls"; "HOME"; "pwd"] = Some home.
Proof. reflexivity. Qed.

(** ** Traces *)

Lemma steps_app clock n (a b : list Event) s :
  steps clock n (a ++ b) s
  = match steps clock n a s with
    | Some s' => steps clock (n + length a) b s'
    | None => None
    end.
Proof.
  revert n s. induction a as [| e a IH]; intros n s; cbn [app steps length].
  - now rewrite Nat.add_0_r.
  - destruct (step (clock n) e s) as [s1 |]; [| reflexivity].
    rewrite IH. now rewrite Nat.add_succ_r.
Qed.

(** X3.  From a session whose buffer holds a string and whose recall
    cursor is the sentinel or an index of the command history, no
    sequence of edits and key presses raises an error, and the session
    reached satisfies the same two conditions: the buffer never becomes
    undefined and the cursor never leaves the command history. *)
Theorem no_event_sequence_raises clock n events s :
  wellFormed s ->
  exists s', steps clock n events s = Some s' /\ wellFormed s'.
Proof.
  revert n s. induction events as [| e rest IH]; intros n s Hs.
  - now exists s.
  - cbn [steps]. destruct e as [value | key]; cbn [step].
    + apply IH. destruct Hs as [_ Hcursor].
      destruct s. split; [discriminate | exact Hcursor].
    + destruct (handleKeyDown_wellFormed (clock n) key s Hs) as (s1 & -> & H1).
      now apply IH.
Qed.

Lemma no_event_sequence_raises_witness :
  wellFormed threeCommands
  /\ exists s',
       steps sampleClock 0
         [Press ArrowUp; Edit "lsx"; Press Tab; Press ArrowDown;
          Press Enter; Press ArrowUp; Press ArrowUp; Press ArrowUp;
          Press ArrowUp; Press Enter] threeCommands = Some s'
       /\ wellFormed s'.
Proof.
  assert (H : wellFormed threeCommands) by (split; [discriminate | now left]).
  split; [exact H |].
  exact (no_event_sequence_raises sampleClock 0 _ threeCommands H).
Defined.

(** ** Recall *)

Abbreviation len s := (Z.of_nat (length (commandHistory s))).

Lemma ups_from clock m n buffer lines page commands i :
  0 <= i < Z.of_nat (length commands) ->
  steps clock m (repeat (Press ArrowUp) n)
    {| currentInput := buffer; history := lines; currentPage := page;
       commandHistory := commands; historyIndex := i |}
  = Some {| currentInput :=
              if (n =? 0)%nat then buffer
              else JS.at_index commands (Z.max 0 (i - Z.of_nat n));
            history := lines; currentPage := page;
            commandHistory := commands;
            historyIndex := Z.max 0 (i - Z.of_nat n) |}.
Proof.
  revert m buffer i. induction n as [| n IH]; intros m buffer i Hi.
  - cbn [repeat steps Nat.eqb]. repeat f_equal; lia.
  - cbn [repeat steps step]. unfold handleKeyDown.
    cbn [commandHistory historyIndex].
    destruct (Z.ltb_spec 0 (Z.of_nat (length commands))) as [_ |]; [| lia].
    destruct (Z.eqb_spec i (-1)) as [| _]; [lia |].
    apply_updates. rewrite IH by lia.
    replace (Z.max 0 (Z.max 0 (i - 1) - Z.of_nat n))
      with (Z.max 0 (i - Z.of_nat (S n))) by lia.
    change (S n =? 0)%nat with false. cbv iota.
    destruct n as [| n']; [| reflexivity].
    cbn [Nat.eqb]. repeat f_equal; lia.
Qed.

(** X4.  Starting live with a command history of [len] entries, [n]
    presses of ArrowUp ([n] at least 1) leave the cursor on index
    [max 0 (len - n)] with that entry in the buffer: the [n]-th most
    recent entry while [n] is at most [len], and the oldest one from
    then on.  Nothing else changes. *)
Theorem arrow_up_n_times clock m n s :
  historyIndex s = -1 -> commandHistory s <> [] -> (1 <= n)%nat ->
  steps clock m (repeat (Press ArrowUp) n) s
  = Some {| currentInput :=
              JS.at_index (commandHistory s) (Z.max 0 (len s - Z.of_nat n));
            history := history s; currentPage := currentPage s;
            commandHistory := commandHistory s;
            historyIndex := Z.max 0 (len s - Z.of_nat n) |}.
Proof.
  destruct s as [buffer lines page commands i].
  cbn [historyIndex commandHistory history currentPage].
  intros -> Hne Hn. destruct n as [| n]; [lia |].
  assert (0 < Z.of_nat (length commands)) by (destruct commands; [easy | cbn; lia]).
  cbn [repeat steps step]. unfold handleKeyDown.
  cbn [commandHistory historyIndex].
  destruct (Z.ltb_spec 0 (Z.of_nat (length commands))) as [_ |]; [| lia].
  change (-1 =? -1) with true. cbv iota. apply_updates.
  rewrite ups_from by lia.
  replace (Z.max 0 (Z.of_nat (length commands) - 1 - Z.of_nat n))
    with (Z.max 0 (Z.of_nat (length commands) - Z.of_nat (S n))) by lia.
  destruct n as [| n']; [| reflexivity].
  cbn [Nat.eqb]. repeat f_equal; lia.
Qed.

Lemma arrow_up_n_times_witness :
  historyIndex threeCommands = -1
  /\ commandHistory threeCommands <> []
  /\ (1 <= 2)%nat
  /\ steps sampleClock 0 (repeat (Press ArrowUp) 2) threeCommands
     = Some {| currentInput :=
                 JS.at_index (commandHistory threeCommands)
                   (Z.max 0 (len threeCommands - Z.of_nat 2));
               history := history threeCommands;
               currentPage := currentPage threeCommands;
               commandHistory := commandHistory threeCommands;
               historyIndex := Z.max 0 (len threeCommands - Z.of_nat 2) |}.
Proof.
  assert (H1 : historyIndex threeCommands = -1) by reflexivity.
  assert (H2 : commandHistory threeCommands <> []) by discriminate.
  assert (H3 : (1 <= 2)%nat) by lia.
  repeat (split; [assumption |]).
  exact (arrow_up_n_times sampleClock 0 2 threeCommands H1 H2 H3).
Defined.

Lemma downs_live clock m k s :
  historyIndex s = -1 ->
  steps clock m (repeat (Press ArrowDown) k) s = Some s.
Proof.
  intros H. revert m. induction k as [| k IH]; intros m; [reflexivity |].
  cbn [repeat steps step]. rewrite arrow_down_live by exact H. apply IH.
Qed.

Lemma downs_from clock m k buffer lines page commands i :
  0 <= i < Z.of_nat (length commands) ->
  Z.of_nat (length commands) - 1 <= i + Z.of_nat k -> (1 <= k)%nat ->
  steps clock m (repeat (Press ArrowDown) k)
    {| currentInput := buffer; history := lines; currentPage := page;
       commandHistory := commands; historyIndex := i |}
  = Some {| currentInput := Some ""; history := lines; currentPage := page;
            commandHistory := commands; historyIndex := -1 |}.
Proof.
  revert m buffer i. induction k as [| k IH]; intros m buffer i Hi Hreach Hk;
    [lia |].
  cbn [repeat steps step]. unfold handleKeyDown.
  cbn [commandHistory historyIndex].
  destruct (Z.eqb_spec i (-1)) as [| _]; [lia |]. cbn [negb].
  destruct (Z.eqb_spec (Z.min (Z.of_nat (length commands) - 1) (i + 1))
              (Z.of_nat (length commands) - 1)) as [_ | Hlt]; apply_updates.
  - now apply downs_live.
  - rewrite Z.min_r by lia. apply IH; lia.
Qed.

(** X5.  Starting live with a non-empty command history, [n] presses of
    ArrowUp followed by [n] presses of ArrowDown ([n] at least 1) end
    live with an empty buffer, whatever the buffer held before; the
    scrollback, the command history and the active view are as before. *)
Theorem recall_up_then_down clock m n s :
  historyIndex s = -1 -> commandHistory s <> [] -> (1 <= n)%nat ->
  steps clock m (repeat (Press ArrowUp) n ++ repeat (Press ArrowDown) n) s
  = Some {| currentInput := Some ""; history := history s;
            currentPage := currentPage s;
            commandHistory := commandHistory s; historyIndex := -1 |}.
Proof.
  intros Hlive Hne Hn. rewrite steps_app.
  assert (Hups := ups_from).
  destruct s as [buffer lines page commands i].
  cbn [historyIndex commandHistory history currentPage] in *. subst i.
  assert (0 < Z.of_nat (length commands)) by (destruct commands; [easy | cbn; lia]).
  destruct n as [| n]; [lia |].
  cbn [repeat steps step]. unfold handleKeyDown.
  cbn [commandHistory historyIndex].
  destruct (Z.ltb_spec 0 (Z.of_nat (length commands))) as [_ |]; [| lia].
  change (-1 =? -1) with true. cbv iota. apply_updates.
  rewrite Hups by lia.
  change (repeat (Press ArrowDown) (S n))
    with (Press ArrowDown :: repeat (Press ArrowDown) n).
  apply (downs_from clock _ (S n)); lia.
Qed.

Lemma recall_up_then_down_witness :
  historyIndex threeCommands = -1
  /\ commandHistory threeCommands <> []
  /\ (1 <= 2)%nat
  /\ steps sampleClock 0
       (repeat (Press ArrowUp) 2 ++ repeat (Press ArrowDown) 2) threeCommands
     = Some {| currentInput := Some ""; history := history threeCommands;
               currentPage := currentPage threeCommands;
               commandHistory := commandHistory threeCommands;
               historyIndex := -1 |}.
Proof.
  assert (H1 : historyIndex threeCommands = -1) by reflexivity.
  assert (H2 : commandHistory threeCommands <> []) by discriminate.
  assert (H3 : (1 <= 2)%nat) by lia.
  repeat (split; [assumption |]).
  exact (recall_up_then_down sampleClock 0 2 threeCommands H1 H2 H3).
Defined.

(** ** The scrollback *)

(** The scrollback after one dispatch: empty for [clear], and otherwise
    the old scrollback, the echo, and the lines of the command. *)
Lemma dispatch_scrollback now command_ s :
  (normalize command_ = "clear"
   /\ history (run (executeCommand now command_) s) = [])
  \/ (normalize command_ <> "clear"
      /\ exists lines,
           history (run (executeCommand now command_) s)
           = history s ++ echo now command_ :: lines
           /\ (isValidCommand command_ = true \/ normalize command_ = "" ->
               Forall (fun l => type l <> error) lines)).
Proof.
  destruct s as [buffer old page commands index].
  unfold executeCommand, isValidCommand, validCommands. cbn [existsb].
  set (cmd := normalize command_).
  repeat (match goal with
          | |- context [String.eqb cmd ?name] =>
              destruct (String.eqb_spec cmd name)
          end; try congruence);
    apply_updates;
    try (left; split; [assumption | reflexivity]);
    right; (split; [assumption |]);
    rewrite <- ?app_assoc; cbn [app];
    eexists; (split; [reflexivity |]);
    intros [Hvalid | Hblank]; try discriminate; try contradiction;
    repeat constructor; discriminate.
Qed.

(** X6.  No event removes or rewrites a line of the scrollback, except
    the submission of [clear], which empties it: after any other edit or
    key press the new scrollback is the old one followed by the lines
    appended. *)
Theorem scrollback_is_append_only now e s s' :
  step now e s = Some s' ->
  (exists lines, history s' = history s ++ lines)
  \/ (history s' = []
      /\ e = Press Enter
      /\ exists input, currentInput s = Some input
                       /\ normalize input = "clear").
Proof.
  destruct e as [value | key]; cbn [step].
  - intros [= <-]. left. exists []. destruct s. cbn. now rewrite app_nil_r.
  - destruct s as [buffer old page commands index].
    destruct key; unfold handleKeyDown;
      cbn [currentInput historyIndex commandHistory].
    + destruct buffer as [input |]; [| discriminate].
      intros [= <-].
      destruct (dispatch_scrollback now input
                  {| currentInput := Some input; history := old;
                     currentPage := page; commandHistory := commands;
                     historyIndex := index |})
        as [[Hclear Hh] | [_ (lines & Hh & _)]].
      * right. split; [| split; [reflexivity | eauto]].
        revert Hh. unfold run, andThen.
        destruct (executeCommand now input _) as [k [b h pg c i]].
        now cbn.
      * left. exists (echo now input :: lines).
        revert Hh. unfold run, andThen.
        destruct (executeCommand now input _) as [k [b h pg c i]].
        now cbn.
    + destruct (getMatchingCommands buffer) as [| m [| m' ms]];
        cbn [length Nat.eqb Nat.ltb Nat.leb]; intros [= <-]; left;
        apply_updates; eexists; try reflexivity; now rewrite app_nil_r.
    + destruct (0 <? Z.of_nat (length commands)); intros [= <-]; left;
        exists []; apply_updates; now rewrite app_nil_r.
    + destruct (negb (index =? -1)); [destruct (_ =? _) |];
        intros [= <-]; left; exists []; apply_updates; now rewrite app_nil_r.
    + intros [= <-]. left. exists []. now rewrite app_nil_r.
Qed.

Lemma scrollback_is_append_only_witness :
  step (sampleClock 0) (Press Tab) (onChange "p" mounted)
  = Some (run (addToHistory (sampleClock 0) output
                 "Possible completions: projects, pwd")
              (onChange "p" mounted))
  /\ ((exists lines,
         history (run (addToHistory (sampleClock 0) output
                         "Possible completions: projects, pwd")
                      (onChange "p" mounted))
         = history (onChange "p" mounted) ++ lines)
      \/ (history (run (addToHistory (sampleClock 0) output
                          "Possible completions: projects, pwd")
                       (onChange "p" mounted)) = []
          /\ Press Tab = Press Enter
          /\ exists input, currentInput (onChange "p" mounted) = Some input
                           /\ normalize input = "clear")).
Proof.
  assert (H : step (sampleClock 0) (Press Tab) (onChange "p" mounted)
              = Some (run (addToHistory (sampleClock 0) output
                             "Possible completions: projects, pwd")
                          (onChange "p" mounted))) by reflexivity.
  split; [exact H |].
  exact (scrollback_is_append_only _ _ _ _ H).
Defined.

(** X7.  The highlighting and the dispatcher agree on what a command
    is: an input that [isValidCommand] accepts, or a blank one, never
    adds an error line to the scrollback. *)
Theorem recognized_input_adds_no_error now command_ s :
  isValidCommand command_ = true \/ normalize command_ = "" ->
  forall l, In l (history (run (executeCommand now command_) s)) ->
            type l = error -> In l (history s).
Proof.
  intros Hok l Hin Herr.
  destruct (dispatch_scrollback now command_ s)
    as [[_ Hh] | [_ (lines & Hh & Hlines)]]; rewrite Hh in Hin.
  - contradiction Hin.
  - apply in_app_or in Hin as [Hin | [<- | Hin]]; [exact Hin | discriminate | ].
    specialize (Hlines Hok). rewrite List.Forall_forall in Hlines.
    now destruct (Hlines l Hin).
Qed.

Lemma recognized_input_adds_no_error_witness :
  (isValidCommand " WhoAmI" = true \/ normalize " WhoAmI" = "")
  /\ forall l, In l (history (run (executeCommand clock " WhoAmI") mounted)) ->
               type l = error -> In l (history mounted).
Proof.
  assert (H : isValidCommand " WhoAmI" = true \/ normalize " WhoAmI" = "")
    by (left; reflexivity).
  split; [exact H |].
  exact (recognized_input_adds_no_error clock " WhoAmI" mounted H).
Defined.

(** ** Completion *)

Ltac each_command H :=
  unfold validCommands in H; cbn [In] in H;
  repeat (destruct H as [H | H]; [subst |]); [.. | contradiction H].

(** No command name is a prefix of another, so a full name matches
    itself alone. *)
Lemma full_name_matches_itself (x : string) :
  In x validCommands ->
  List.filter (fun cmd => JS.startsWith (JS.toLowerCase cmd) x) validCommands
  = [x].
Proof. intros H. each_command H; reflexivity. Qed.

Lemma command_names_are_valid (x : string) :
  In x validCommands -> isValidCommand x = true.
Proof. intros H. each_command H; reflexivity. Qed.

Lemma isValidCommand_In (text : string) :
  isValidCommand text = true -> In (normalize text) validCommands.
Proof.
  unfold isValidCommand. intros H.
  apply existsb_exists in H as (x & Hx & Heq).
  apply String.eqb_eq in Heq. now rewrite Heq.
Qed.

Lemma getMatchingCommands_filter (text : string) :
  text <> "" ->
  getMatchingCommands (Some text)
  = List.filter
      (fun cmd => JS.startsWith (JS.toLowerCase cmd) (normalize text))
      validCommands.
Proof. destruct text; [contradiction | reflexivity]. Qed.

(** X8.  When the buffer holds a command up to case and surrounding
    white space, the completion key replaces it with the command name
    itself, and changes nothing else. *)
Theorem tab_canonicalizes_valid_command now text s :
  currentInput s = Some text -> isValidCommand text = true ->
  handleKeyDown now Tab s
  = Some {| currentInput := Some (normalize text); history := history s;
            currentPage := currentPage s;
            commandHistory := commandHistory s;
            historyIndex := historyIndex s |}.
Proof.
  intros Hbuffer Hvalid. unfold handleKeyDown. rewrite Hbuffer.
  assert (Hne : text <> "") by (intros ->; discriminate Hvalid).
  rewrite (getMatchingCommands_filter text Hne).
  rewrite full_name_matches_itself by now apply isValidCommand_In.
  reflexivity.
Qed.

Lemma tab_canonicalizes_valid_command_witness :
  currentInput (onChange "  CLear " mounted) = Some "  CLear "
  /\ isValidCommand "  CLear " = true
  /\ handleKeyDown clock Tab (onChange "  CLear " mounted)
     = Some {| currentInput := Some (normalize "  CLear ");
               history := history (onChange "  CLear " mounted);
               currentPage := currentPage (onChange "  CLear " mounted);
               commandHistory := commandHistory (onChange "  CLear " mounted);
               historyIndex := historyIndex (onChange "  CLear " mounted) |}.
Proof.
  split; [reflexivity |]. split; [reflexivity |].
  exact (tab_canonicalizes_valid_command clock "  CLear "
           (onChange "  CLear " mounted) eq_refl eq_refl).
Defined.

(** X9.  The completion key never raises and never touches the command
    history, the recall cursor or the active view; and when it changes
    the buffer, the new buffer is a command name that starts with the
    normal form of the old buffer, and the scrollback is unchanged. *)
Theorem tab_completes_only_to_commands now s :
  exists s',
    handleKeyDown now Tab s = Some s'
    /\ commandHistory s' = commandHistory s
    /\ historyIndex s' = historyIndex s
    /\ currentPage s' = currentPage s
    /\ (currentInput s' = currentInput s
        \/ exists text m,
             currentInput s = Some text /\ currentInput s' = Some m
             /\ In m validCommands
             /\ JS.startsWith (JS.toLowerCase m) (normalize text) = true
             /\ history s' = history s).
Proof.
  destruct s as [buffer old page commands index]. unfold handleKeyDown.
  cbn [currentInput commandHistory historyIndex currentPage history].
  destruct (getMatchingCommands buffer) as [| m [| m' ms]] eqn:Hm;
    cbn [length Nat.eqb Nat.ltb Nat.leb]; eexists;
    (split; [reflexivity |]); apply_updates; repeat (split; [reflexivity |]);
    try (left; reflexivity).
  right. destruct buffer as [[| c r] |]; try discriminate Hm.
  rewrite getMatchingCommands_filter in Hm by discriminate.
  assert (Hin : In m [m]) by now left.
  rewrite <- Hm in Hin. apply filter_In in Hin as [Hin Hprefix].
  exists (String c r), m. now repeat split.
Qed.

(** X10.  Whenever the hint to press Tab is shown, pressing Tab does
    something: it either replaces the buffer with a command name other
    than the text it holds, or appends one output line to the scrollback
    and leaves the buffer alone. *)
Theorem hint_means_tab_acts now s :
  showsHint (currentInput s) = true ->
  exists s',
    handleKeyDown now Tab s = Some s'
    /\ ((exists m, In m validCommands /\ currentInput s' = Some m
                   /\ currentInput s <> Some m /\ history s' = history s)
        \/ (currentInput s' = currentInput s
            /\ exists l, history s' = history s ++ [l] /\ type l = output)).
Proof.
  destruct s as [buffer old page commands index].
  cbn [currentInput history]. unfold showsHint.
  destruct buffer as [[| c r] |]; try discriminate.
  set (text := String c r). intros H.
  apply andb_true_iff in H as [Hpartial Hinvalid].
  apply negb_true_iff in Hinvalid.
  unfold hasPartialMatch in Hpartial. unfold handleKeyDown.
  cbn [currentInput commandHistory].
  destruct (getMatchingCommands (Some text)) as [| m [| m' ms]] eqn:Hm;
    cbn [length Nat.eqb Nat.ltb Nat.leb] in *; [discriminate Hpartial | |];
    eexists; (split; [reflexivity |]); apply_updates.
  - left. exists m.
    assert (Hin : In m validCommands).
    { assert (H : In m [m]) by now left.
      rewrite <- Hm in H. unfold text in H.
      rewrite getMatchingCommands_filter in H by discriminate.
      now apply filter_In in H. }
    repeat split; try assumption; try reflexivity.
    intros [= E]. rewrite E, command_names_are_valid in Hinvalid by assumption.
    discriminate Hinvalid.
  - right. split; [reflexivity |]. eexists. split; reflexivity.
Qed.

Lemma hint_means_tab_acts_witness :
  showsHint (currentInput (onChange "Pro" mounted)) = true
  /\ exists s',
       handleKeyDown clock Tab (onChange "Pro" mounted) = Some s'
       /\ ((exists m, In m validCommands /\ currentInput s' = Some m
                      /\ currentInput (onChange "Pro" mounted) <> Some m
                      /\ history s' = history (onChange "Pro" mounted))
           \/ (currentInput s' = currentInput (onChange "Pro" mounted)
               /\ exists l, history s'
                            = history (onChange "Pro" mounted) ++ [l]
                            /\ type l = output)).
Proof.
  split; [reflexivity |].
  exact (hint_means_tab_acts clock (onChange "Pro" mounted) eq_refl).
Defined.

(** X21.  The hint to press Tab is on screen exactly when the input is
    shown in yellow: the two conditions of the input line, written
    separately, agree on every buffer. *)
Theorem hint_iff_input_is_yellow (input : option string) :
  showsHint input = true <-> inputClass input = textYellow400.
Proof.
  unfold showsHint, inputClass.
  destruct input as [[| c r] |]; try (split; discriminate).
  destruct (isValidCommand (String c r)), (hasPartialMatch (Some (String c r)));
    cbn; split; congruence.
Qed.

End InteractionSpec.

(* ===================================================================== *)
(** * More properties of the front-matter parser                          *)
(* ===================================================================== *)

Module ParserExtra.
Import JS JSFacts Blog SourceFormat ParserSpec.

(** ** The pattern matches every delimited text *)

Lemma ws_then_newline_complete (w rest : string) :
  allWhiteSpace w = true -> In rest (ws_then_newline (w +:+ String LF rest)).
Proof.
  induction w as [| c w IH]; intros Hw.
  - cbn [String.append ws_then_newline]. change (isWhiteSpace LF) with true.
    cbv iota. rewrite Ascii.eqb_refl. apply in_or_app. right. now left.
  - cbn [allWhiteSpace] in Hw. apply andb_true_iff in Hw as [Hc Hw].
    cbn [String.append ws_then_newline]. rewrite Hc.
    apply in_or_app. left. now apply IH.
Qed.

Lemma closing_complete (w body : string) :
  allWhiteSpace w = true ->
  closing (String LF ("---" +:+ w +:+ String LF body)) <> None.
Proof.
  intros Hw. unfold closing. cbn [String.append startsWith].
  rewrite !Ascii.eqb_refl, startsWith_nil. cbn [andb drop].
  pose proof (ws_then_newline_complete w body Hw) as Hin.
  destruct (ws_then_newline (w +:+ String LF body)); [contradiction Hin |].
  discriminate.
Qed.

Lemma header_then_body_complete (h w body : string) :
  allWhiteSpace w = true ->
  header_then_body (h +:+ String LF ("---" +:+ w +:+ String LF body)) <> None.
Proof.
  intros Hw. pose proof (closing_complete w body Hw) as Hclosing.
  set (tail := String LF ("---" +:+ w +:+ String LF body)) in *.
  induction h as [| c h IH].
  - change ("" +:+ tail) with tail.
    destruct (closing tail) as [b |] eqn:E; [| contradiction].
    now rewrite (header_then_body_here _ _ E).
  - change (String c h +:+ tail) with (String c (h +:+ tail)).
    destruct (closing (String c (h +:+ tail))) as [b |] eqn:E.
    + now rewrite (header_then_body_here _ _ E).
    + rewrite (header_then_body_next _ _ E).
      destruct (header_then_body (h +:+ tail)) as [[h0 b0] |];
        [discriminate | exact IH].
Qed.

Lemma first_match_complete {A B} (f : A -> option B) (ways : list A) (w : A) :
  In w ways -> f w <> None -> first_match f ways <> None.
Proof.
  induction ways as [| x ways IH]; intros Hin Hw; [contradiction Hin |].
  cbn [first_match]. destruct (f x) eqn:Hx; [discriminate |].
  destruct Hin as [-> | Hin]; [congruence | now apply IH].
Qed.

Lemma frontmatterRegex_complete (text : string) :
  delimited text -> frontmatterRegex text <> None.
Proof.
  intros (w1 & h & w2 & body & Hw1 & Hw2 & ->). unfold frontmatterRegex.
  cbn [String.append startsWith drop]. rewrite !Ascii.eqb_refl, startsWith_nil.
  cbn [andb]. cbn [chr String.append].
  apply (first_match_complete _ _
           (h +:+ String LF ("---" +:+ w2 +:+ String LF body))).
  - now apply ws_then_newline_complete.
  - now apply header_then_body_complete.
Qed.

(** X11.  The parser returns the whole text as body exactly when the
    text is not delimited; so a delimited text always loses its header
    block, and nothing else makes the parser cut the text. *)
Theorem whole_text_is_body_iff_not_delimited (text : string) :
  content (parseMarkdownWithFrontmatter text) = text <-> ~ delimited text.
Proof.
  unfold parseMarkdownWithFrontmatter.
  destruct (frontmatterRegex text) as [[h b] |] eqn:E; cbn [content].
  - pose proof (frontmatterRegex_sound _ _ _ E) as (w1 & w2 & Hw1 & Hw2 & Htext).
    split.
    + intros Hb. exfalso. subst b.
      apply (f_equal String.length) in Htext.
      rewrite !length_app in Htext. cbn [String.length] in Htext. lia.
    + intros Hnot. exfalso. apply Hnot. now exists w1, h, w2, b.
  - split; [| reflexivity].
    intros _ Hd. now apply frontmatterRegex_complete in Hd.
Qed.

(** X12.  The body the parser returns is always the end of the text it
    was given: the parser removes a prefix and changes nothing in what
    it keeps. *)
Theorem body_is_the_end_of_the_text (text : string) :
  exists removed,
    text = removed +:+ content (parseMarkdownWithFrontmatter text).
Proof.
  unfold parseMarkdownWithFrontmatter.
  destruct (frontmatterRegex text) as [[h b] |] eqn:E; cbn [content].
  - apply frontmatterRegex_sound in E as (w1 & w2 & _ & _ & ->).
    exists ("---" +:+ w1 +:+ nl +:+ h +:+ nl +:+ "---" +:+ w2 +:+ nl).
    now rewrite !app_assoc.
  - now exists EmptyString.
Qed.

(** ** Lines without a key *)

Lemma parseLine_without_key (m : gmap string Value) (line : string) :
  indexOf line ":" <= 0 -> parseLine m line = m.
Proof.
  intros H. unfold parseLine.
  destruct (Z.ltb_spec 0 (indexOf line ":")); [lia | reflexivity].
Qed.

(** The header text made of the given lines is parsed line by line. *)
Lemma parseFrontmatterText_lines (lines : list string) :
  Forall (fun l => lacks LF l = true) lines ->
  parseFrontmatterText (join nl lines) = fold_left parseLine lines ∅.
Proof.
  intros Hall. unfold parseFrontmatterText.
  destruct lines as [| l rest]; [reflexivity |].
  now rewrite split_join.
Qed.

(** X13.  A header line without a key, that is, without colon or with
    nothing before its first colon (a blank line, a remark), is ignored
    wherever it stands: the header parses to the same mapping with the
    line and without it. *)
Theorem line_without_key_is_ignored (before after : list string)
    (line : string) :
  indexOf line ":" <= 0 ->
  Forall (fun l => lacks LF l = true) (before ++ line :: after) ->
  parseFrontmatterText (join nl (before ++ line :: after))
  = parseFrontmatterText (join nl (before ++ after)).
Proof.
  intros Hline Hall.
  rewrite !parseFrontmatterText_lines.
  - rewrite !fold_left_app. cbn [fold_left].
    now rewrite parseLine_without_key.
  - apply List.Forall_app in Hall as [Hb Ha].
    apply List.Forall_app. split; [exact Hb | now inversion Ha].
  - exact Hall.
Qed.

Lemma line_without_key_is_ignored_witness :
  indexOf "# draft, do not publish" ":" <= 0
  /\ Forall (fun l => lacks LF l = true)
            (["title: A"] ++ "# draft, do not publish" :: ["tags: [a, b]"])
  /\ parseFrontmatterText
       (join nl (["title: A"] ++ "# draft, do not publish" :: ["tags: [a, b]"]))
     = parseFrontmatterText (join nl (["title: A"] ++ ["tags: [a, b]"])).
Proof.
  assert (H1 : indexOf "# draft, do not publish" ":" <= 0) by (cbn; lia).
  assert (H2 : Forall (fun l => lacks LF l = true)
                 (["title: A"] ++ "# draft, do not publish" :: ["tags: [a, b]"]))
    by (repeat constructor).
  split; [exact H1 |]. split; [exact H2 |].
  exact (line_without_key_is_ignored ["title: A"] ["tags: [a, b]"] _ H1 H2).
Defined.

End ParserExtra.

(* ===================================================================== *)
(** * Properties of the loaded registry                                   *)
(* ===================================================================== *)

Module LoaderSpec.
Import Blog SourceFormat Loader.

(** ** The sort, whatever the comparator *)

Section AnyComparator.

Context {A : Type}.
Variable compareFn : A -> A -> option Z.

Lemma insertWith_perm (x : A) (l : list A) :
  Permutation (x :: l) (insertWith compareFn x l).
Proof.
  induction l as [| y l IH]; cbn [insertWith]; [reflexivity |].
  destruct (SortCompare compareFn x y <=? 0); [reflexivity |].
  rewrite perm_swap. now apply perm_skip.
Qed.

Lemma sortWith_perm (l : list A) : Permutation l (sortWith compareFn l).
Proof.
  induction l as [| x l IH]; cbn [sortWith]; [reflexivity |].
  rewrite <- insertWith_perm. now apply perm_skip.
Qed.

End AnyComparator.

(** The sort of [Blog] is this sort under the comparator of [Blog]. *)
Lemma sort_is_sortWith getTime (posts : list BlogPost) :
  Blog.sort getTime posts = sortWith (Blog.compareFn getTime) posts.
Proof.
  induction posts as [| x l IH]; [reflexivity |].
  cbn [Blog.sort sortWith]. rewrite IH.
  generalize (sortWith (compareFn getTime) l). intros sorted.
  induction sorted as [| y rest IHs]; [reflexivity |].
  cbn [Blog.insert insertWith]. unfold SortCompare, Blog.SortCompare.
  now rewrite IHs.
Qed.

(** X15.  A source that is not delimited, one without front matter,
    gives a record with the defaults: the slug for title, the empty
    string for date, read time and excerpt, no tags, and the whole
    source for content. *)
Theorem source_without_front_matter_gets_defaults (name source : string) :
  ~ delimited source ->
  toPost (name, source)
  = {| slug := name; title := VStr name; date := VStr "";
       readTime := VStr ""; excerpt := VStr ""; tags := VArr [];
       content := source |}.
Proof.
  intros Hnot. unfold toPost, parseMarkdownWithFrontmatter. cbn [fst snd].
  destruct (frontmatterRegex source) as [[h b] |] eqn:E; [| reflexivity].
  exfalso. apply Hnot.
  apply ParserSpec.frontmatterRegex_sound in E as (w1 & w2 & Hw1 & Hw2 & E).
  now exists w1, h, w2, b.
Qed.

Lemma source_without_front_matter_gets_defaults_witness :
  ~ delimited noteSource
  /\ toPost ("notes", noteSource)
     = {| slug := "notes"; title := VStr "notes"; date := VStr "";
          readTime := VStr ""; excerpt := VStr ""; tags := VArr [];
          content := noteSource |}.
Proof.
  assert (H : ~ delimited noteSource).
  { intros (w1 & h & w2 & b & _ & _ & E). cbn in E. discriminate E. }
  split; [exact H |].
  exact (source_without_front_matter_gets_defaults "notes" noteSource H).
Defined.

(** ** The order by date *)

Section ByDate.

Variable getTime : string -> option Z.

Abbreviation byDate := (Loader.byDate getTime).
Abbreviation notOlder := (Loader.notOlder getTime).
Abbreviation hasDate := (Loader.hasDate getTime).
Abbreviation dated := (Loader.dated getTime).
Abbreviation timeOf := (Loader.timeOf getTime).

Lemma loaded_hasDate_time (p : LoadedPost) :
  hasDate p -> exists t, timeOf (date p) = Some t.
Proof.
  unfold Loader.hasDate. destruct (timeOf (date p)) as [t |]; [eauto | tauto].
Qed.

Lemma loaded_SortCompare_dated (a b : LoadedPost) (ta tb : Z) :
  timeOf (date a) = Some ta -> timeOf (date b) = Some tb ->
  SortCompare byDate a b = tb - ta.
Proof.
  intros Ha Hb. unfold SortCompare, Loader.byDate. now rewrite Ha, Hb.
Qed.

Lemma loaded_notOlder_trans (a b c : LoadedPost) :
  notOlder a b -> notOlder b c -> notOlder a c.
Proof.
  intros (ta & tb & Ha & Hb & Hab) (tb' & tc & Hb' & Hc & Hbc).
  rewrite Hb in Hb'. injection Hb' as <-.
  exists ta, tc. repeat split; try assumption. lia.
Qed.

Lemma loaded_insert_sorted (x : LoadedPost) (l : list LoadedPost) :
  hasDate x -> Forall hasDate l ->
  StronglySorted notOlder l -> StronglySorted notOlder (insertWith byDate x l).
Proof.
  intros Hx Hl Hsorted.
  induction Hsorted as [| y l Hsorted IH Hy]; cbn [insertWith].
  - repeat constructor.
  - apply List.Forall_cons_iff in Hl as [Hdy Hl].
    destruct (loaded_hasDate_time x Hx) as (tx & Htx).
    destruct (loaded_hasDate_time y Hdy) as (ty & Hty).
    rewrite (loaded_SortCompare_dated x y tx ty Htx Hty).
    destruct (Z.leb_spec (ty - tx) 0) as [Hle | Hgt].
    + assert (Hxy : notOlder x y) by (exists tx, ty; repeat split; auto; lia).
      constructor; [now constructor |].
      constructor; [exact Hxy |].
      eapply List.Forall_impl; [| exact Hy].
      intros z Hz. now apply (loaded_notOlder_trans x y z).
    + constructor; [now apply IH |].
      eapply Permutation_Forall; [apply insertWith_perm |].
      constructor; [| exact Hy].
      exists ty, tx. repeat split; auto; lia.
Qed.

Lemma loaded_filter_insert (t : Z) (x : LoadedPost) (l : list LoadedPost) :
  List.filter (dated t) (insertWith byDate x l)
  = List.filter (dated t) (x :: l).
Proof.
  induction l as [| y l IH]; cbn [insertWith]; [reflexivity |].
  destruct (Z.leb_spec (SortCompare byDate x y) 0) as [_ | Hgt]; [reflexivity |].
  cbn [List.filter] in *. rewrite IH.
  unfold SortCompare, Loader.byDate, Loader.dated in *.
  destruct (timeOf (date y)) as [ty |]; [| lia].
  destruct (timeOf (date x)) as [tx |]; [| lia].
  destruct (Z.eqb_spec tx t), (Z.eqb_spec ty t); try reflexivity. lia.
Qed.

(** X16.  When the date of every source parses, the loaded registry is
    ordered by date descending, and the records of one date stand in the
    order of their sources. *)
Theorem loaded_registry_is_newest_first (sources : list (string * string)) :
  Forall (fun post => hasDate (toPost post)) sources ->
  StronglySorted notOlder (loadBlogPosts getTime sources)
  /\ forall t, List.filter (dated t) (loadBlogPosts getTime sources)
               = List.filter (dated t) (map toPost sources).
Proof.
  intros Hdates. unfold loadBlogPosts.
  apply List.Forall_map in Hdates.
  induction Hdates as [| p l Hp Hl IH]; cbn [sortWith].
  - split; [constructor | reflexivity].
  - destruct IH as [IHsorted IHstable]. split.
    + apply loaded_insert_sorted; [exact Hp | | exact IHsorted].
      eapply Permutation_Forall; [apply sortWith_perm | exact Hl].
    + intros t. rewrite loaded_filter_insert. cbn [List.filter].
      now rewrite IHstable.
Qed.

End ByDate.

Lemma loaded_registry_is_newest_first_witness :
  Forall (fun post => hasDate isoDate (toPost post))
         [("secure-api-design", secureSource);
          ("optimizing-database-queries", optimizingSource)]
  /\ StronglySorted (notOlder isoDate)
       (loadBlogPosts isoDate
          [("secure-api-design", secureSource);
           ("optimizing-database-queries", optimizingSource)])
  /\ forall t,
       List.filter (dated isoDate t)
         (loadBlogPosts isoDate
            [("secure-api-design", secureSource);
             ("optimizing-database-queries", optimizingSource)])
       = List.filter (dated isoDate t)
           (map toPost
              [("secure-api-design", secureSource);
               ("optimizing-database-queries", optimizingSource)]).
Proof.
  assert (H : Forall (fun post => hasDate isoDate (toPost post))
                [("secure-api-design", secureSource);
                 ("optimizing-database-queries", optimizingSource)]).
  { repeat constructor; unfold Loader.hasDate; vm_compute; discriminate. }
  split; [exact H |].
  exact (loaded_registry_is_newest_first isoDate _ H).
Defined.

(** The two posts come out newest first, with the date of the second
    read in spite of the space that follows it. *)
Example two_posts_loaded :
  map (fun p => (slug p, date p))
      (loadBlogPosts isoDate
         [("secure-api-design", secureSource);
          ("optimizing-database-queries", optimizingSource)])
  = [ ("optimizing-database-queries", VStr "2024-01-08");
      ("secure-api-design", VStr "2023-12-20") ].
Proof. vm_compute. reflexivity. Qed.

End LoaderSpec.

(* ===================================================================== *)
(** * Properties of the rendering of a line                               *)
(* ===================================================================== *)

Module RenderSpec.
Import JS JSFacts Terminal TerminalSpec Render.

Lemma takeWhile_dropWhile (p : ascii -> bool) (s : string) :
  takeWhile p s +:+ dropWhile p s = s.
Proof.
  induction s as [| c r IH]; [reflexivity |].
  cbn [takeWhile dropWhile]. destruct (p c); [| reflexivity].
  cbn [String.append]. now rewrite IH.
Qed.

Lemma takeWhile_all (p : ascii -> bool) (s : string) :
  takeWhile p (takeWhile p s) = takeWhile p s
  /\ dropWhile p (takeWhile p s) = "".
Proof.
  induction s as [| c r [IH1 IH2]]; [now split |].
  cbn [takeWhile]. destruct (p c) eqn:Hc; [| now split].
  cbn [takeWhile dropWhile]. rewrite Hc, IH1, IH2. now split.
Qed.

Lemma takeWhile_app (p : ascii -> bool) (s x : string) :
  takeWhile p s <> "" -> takeWhile p (s +:+ x) <> "".
Proof.
  destruct s as [| c r]; [intros H; now contradiction H |].
  cbn [String.append takeWhile]. now destruct (p c).
Qed.

(** ** The help pattern *)

Lemma helpMatch_split (content indent name description : string) :
  helpMatch content = Some (indent, name, description) ->
  indent +:+ name +:+ description = content.
Proof.
  unfold helpMatch.
  destruct (takeWhile isWord (dropWhile isWhiteSpace content)) eqn:Hname;
    [discriminate |].
  destruct (dropWhile isWhiteSpace
              (dropWhile isWord (dropWhile isWhiteSpace content)));
    [discriminate |].
  destruct (_ && _); [| discriminate].
  intros [= <- <- <-]. rewrite <- Hname.
  now rewrite !takeWhile_dropWhile.
Qed.

(** ** The URL pattern *)

Lemma schemeAt_split (s scheme rest : string) :
  schemeAt s = Some (scheme, rest) ->
  s = scheme +:+ rest /\ (scheme = "https://" \/ scheme = "http://").
Proof.
  unfold schemeAt.
  destruct (startsWith s "https://") eqn:H1.
  - intros [= <- <-]. split; [| now left]. now apply startsWith_split in H1.
  - destruct (startsWith s "http://") eqn:H2; [| discriminate].
    intros [= <- <-]. split; [| now right]. now apply startsWith_split in H2.
Qed.

Lemma schemeAt_scheme (scheme rest : string) :
  scheme = "https://" \/ scheme = "http://" ->
  schemeAt (scheme +:+ rest) = Some (scheme, rest).
Proof.
  intros [-> | ->]; unfold schemeAt; cbn [String.append startsWith drop];
    rewrite ?Ascii.eqb_refl, ?startsWith_nil; reflexivity.
Qed.

Lemma matchAt_split (s url rest : string) :
  matchAt s = Some (url, rest) ->
  s = url +:+ rest /\ (String.length rest < String.length s)%nat.
Proof.
  unfold matchAt.
  destruct (schemeAt s) as [[scheme r0] |] eqn:Hs; [| discriminate].
  apply schemeAt_split in Hs as [-> Hscheme].
  destruct (takeWhile notWhiteSpace r0) eqn:Hrun; [discriminate |].
  intros [= <- <-]. rewrite <- Hrun. split.
  - now rewrite app_assoc, takeWhile_dropWhile.
  - rewrite <- (takeWhile_dropWhile notWhiteSpace r0) at 2.
    rewrite !length_app, Hrun. cbn [String.length].
    destruct Hscheme as [-> | ->]; cbn [String.length]; lia.
Qed.

(** What the pattern matches is a URL by itself. *)
Lemma matchAt_isUrl (s url rest : string) :
  matchAt s = Some (url, rest) -> isUrl url.
Proof.
  unfold matchAt, isUrl.
  destruct (schemeAt s) as [[scheme r0] |] eqn:Hs; [| discriminate].
  apply schemeAt_split in Hs as [_ Hscheme].
  destruct (takeWhile notWhiteSpace r0) eqn:Hrun; [discriminate |].
  intros [= <- _]. rewrite <- Hrun.
  unfold matchAt. rewrite schemeAt_scheme by exact Hscheme.
  destruct (takeWhile_all notWhiteSpace r0) as [-> ->].
  now rewrite Hrun.
Qed.

(** A match stays a match when text is added after it. *)
Lemma matchAt_app (b x url rest : string) :
  matchAt b = Some (url, rest) -> matchAt (b +:+ x) <> None.
Proof.
  unfold matchAt.
  destruct (schemeAt b) as [[scheme r0] |] eqn:Hs; [| discriminate].
  apply schemeAt_split in Hs as [-> Hscheme].
  destruct (takeWhile notWhiteSpace r0) eqn:Hrun; [discriminate |].
  intros _. rewrite app_assoc, schemeAt_scheme by exact Hscheme.
  assert (H : takeWhile notWhiteSpace (r0 +:+ x) <> "")
    by (apply takeWhile_app; now rewrite Hrun).
  destruct (takeWhile notWhiteSpace (r0 +:+ x)); [contradiction | discriminate].
Qed.

Lemma findMatch_cons (c : ascii) (r : string) :
  findMatch (String c r) = None ->
  matchAt (String c r) = None /\ findMatch r = None.
Proof.
  cbn [findMatch]. destruct (matchAt (String c r)) as [[u x] |]; [discriminate |].
  now destruct (findMatch r).
Qed.

Lemma findMatch_drop (n : nat) (t : string) :
  findMatch t = None -> findMatch (drop n t) = None.
Proof.
  revert t. induction n as [| n IH]; intros t H; [exact H |].
  destruct t as [| c r]; [exact H |].
  cbn [drop]. apply IH. now apply findMatch_cons in H.
Qed.

Lemma findMatch_suffixes (t : string) :
  (forall a b, t = a +:+ b -> matchAt b = None) -> findMatch t = None.
Proof.
  induction t as [| c r IH]; intros H.
  - cbn [findMatch]. now rewrite (H "" "" eq_refl).
  - cbn [findMatch]. rewrite (H "" (String c r) eq_refl).
    rewrite IH; [reflexivity |].
    intros a b ->. now apply (H (String c a) b).
Qed.

(** ** The shared [lastIndex] *)

Lemma test_urlFree (lastIndex : nat) (t : string) :
  urlFree t -> test lastIndex t = (false, O).
Proof.
  intros H. unfold test.
  destruct (String.length t <? lastIndex)%nat; [reflexivity |].
  now rewrite findMatch_drop.
Qed.

Lemma test_isUrl (u : string) :
  isUrl u -> test 0 u = (true, String.length u).
Proof.
  unfold isUrl, test. intros H. cbn [Nat.ltb Nat.leb drop].
  destruct u as [| c r]; [discriminate H |].
  cbn [findMatch]. rewrite H. reflexivity.
Qed.

(** ** The split *)

Lemma app_snoc_inv (a b p : string) (c : ascii) :
  a +:+ b = p +:+ chr c -> b <> "" ->
  exists b', b = b' +:+ chr c /\ p = a +:+ b'.
Proof.
  revert p. induction a as [| x a IH]; intros p H Hb.
  - exists p. now split.
  - destruct p as [| y p].
    + cbn in H. injection H as _ H. destruct a, b; try discriminate H.
      now contradiction Hb.
    + cbn [String.append] in H. injection H as -> H.
      destruct (IH p H Hb) as (b' & -> & ->). now exists b'.
Qed.

Lemma noStart_urlFree (pending s : string) :
  noStart pending s -> urlFree pending.
Proof.
  intros H. apply findMatch_suffixes. intros a b Hab.
  destruct b as [| c r]; [reflexivity |].
  destruct (matchAt (String c r)) as [[u x] |] eqn:E; [| reflexivity].
  exfalso. apply (matchAt_app _ s) in E. apply E.
  apply (H a); [exact Hab | discriminate].
Qed.

Lemma noStart_step (pending r : string) (c : ascii) :
  noStart pending (String c r) -> matchAt (String c r) = None ->
  noStart (pending +:+ chr c) r.
Proof.
  intros H Hc a b Hab Hb.
  symmetry in Hab. destruct (app_snoc_inv _ _ _ _ Hab Hb) as (b' & -> & ->).
  rewrite app_assoc. cbn [chr String.append].
  destruct b' as [| x b']; [exact Hc |].
  apply (H a); [reflexivity | discriminate].
Qed.

Lemma splitFrom_text (fuel : nat) (pending s : string) :
  (String.length s <= fuel)%nat ->
  fold_right String.append "" (splitFrom fuel pending s) = pending +:+ s.
Proof.
  revert pending s. induction fuel as [| fuel IH]; intros pending s Hlen.
  - destruct s; [cbn; now rewrite !app_nil_r | cbn in Hlen; lia].
  - destruct s as [| c r]; [cbn; now rewrite !app_nil_r |].
    cbn [splitFrom]. destruct (matchAt (String c r)) as [[u rest] |] eqn:E.
    + apply matchAt_split in E as [E Hlt]. cbn [fold_right].
      rewrite IH by lia. now rewrite E.
    + rewrite IH by (cbn in Hlen; lia). now rewrite app_assoc.
Qed.

Lemma renderParts_text (lastIndex : nat) (parts : list string) :
  textOf (renderParts lastIndex parts) = fold_right String.append "" parts.
Proof.
  revert lastIndex. induction parts as [| part rest IH]; intros L; [reflexivity |].
  cbn [renderParts]. destruct (test L part) as [found L'].
  cbn [fold_right textOf]. fold (textOf (renderParts L' rest)).
  rewrite IH. now destruct found.
Qed.

Lemma splitFrom_classified (fuel : nat) (pending s : string) (lastIndex : nat) :
  (String.length s <= fuel)%nat -> noStart pending s ->
  Forall wellClassified (renderParts lastIndex (splitFrom fuel pending s)).
Proof.
  revert pending s lastIndex.
  induction fuel as [| fuel IH]; intros pending s L Hlen Hstart.
  - destruct s; [| cbn in Hlen; lia].
    cbn [splitFrom renderParts].
    rewrite test_urlFree by now apply (noStart_urlFree _ "").
    repeat constructor. now apply (noStart_urlFree _ "").
  - destruct s as [| c r].
    + cbn [splitFrom renderParts].
      rewrite test_urlFree by now apply (noStart_urlFree _ "").
      repeat constructor. now apply (noStart_urlFree _ "").
    + cbn [splitFrom]. destruct (matchAt (String c r)) as [[u rest] |] eqn:E.
      * pose proof (matchAt_isUrl _ _ _ E) as Hu.
        apply matchAt_split in E as [_ Hlt].
        pose proof (noStart_urlFree _ _ Hstart) as Hfree.
        cbn [renderParts]. rewrite (test_urlFree L _ Hfree).
        rewrite (test_isUrl _ Hu).
        constructor; [exact Hfree |]. constructor; [exact Hu |].
        apply IH; [cbn [String.length] in Hlen, Hlt; lia |].
        intros a b Hab Hb. destruct a, b; try discriminate Hab.
        now contradiction Hb.
      * apply IH; [cbn [String.length] in Hlen; lia | now apply noStart_step].
Qed.

(** X17.  Rendering loses nothing of a line and adds nothing to it: the
    texts of the pieces, one after another, are the content, for every
    content and every line type. *)
Theorem rendered_text_is_the_content (content : string) (lineType : LineType) :
  textOf (renderContent content lineType) = content.
Proof.
  unfold renderContent.
  destruct (match lineType with help => helpMatch content | _ => None end)
    as [[[indent name] description] |] eqn:E.
  - destruct lineType; try discriminate E.
    apply helpMatch_split in E. cbn. now rewrite app_nil_r.
  - rewrite renderParts_text. unfold splitUrl.
    now rewrite splitFrom_text by lia.
Qed.

(** X18.  On a line that is not a help entry, every anchor is a URL
    (http:// or https:// followed by one or more code units that are not
    white space, and nothing else) and no span contains one: the
    [lastIndex] that the tests of the parts share never makes a URL a
    span or a text an anchor. *)
Theorem links_are_exactly_the_urls (content : string) (lineType : LineType) :
  lineType <> help ->
  Forall wellClassified (renderContent content lineType).
Proof.
  intros Hty. unfold renderContent.
  destruct lineType; try contradiction; cbv iota;
    apply splitFrom_classified; try lia;
    intros a b Hab Hb; destruct a, b; try discriminate Hab;
    now contradiction Hb.
Qed.

Lemma links_are_exactly_the_urls_witness :
  accent <> help
  /\ Forall wellClassified
       (renderContent
          "GitHub repo: https://github.com/yagizklc/yagizklc.github.io" accent).
Proof.
  assert (H : accent <> help) by discriminate.
  split; [exact H |].
  exact (links_are_exactly_the_urls _ accent H).
Defined.

(** ** Help entries *)

Lemma word_not_space (c : ascii) : isWord c = true -> isWhiteSpace c = false.
Proof. destruct c as [[] [] [] [] [] [] [] []]; vm_compute; congruence. Qed.

Lemma space_not_word (c : ascii) : isWhiteSpace c = true -> isWord c = false.
Proof. destruct c as [[] [] [] [] [] [] [] []]; vm_compute; congruence. Qed.

Lemma takeWhile_stop (p : ascii -> bool) (a b : string) :
  allChars p a = true -> takeWhile p b = "" ->
  takeWhile p (a +:+ b) = a /\ dropWhile p (a +:+ b) = b.
Proof.
  intros Ha Hb. induction a as [| c a IH].
  - split; [exact Hb |]. cbn [String.append].
    destruct b as [| c r]; [reflexivity |].
    cbn [takeWhile dropWhile] in *. now destruct (p c).
  - cbn [allChars] in Ha. apply andb_prop in Ha as [Hc Ha].
    destruct (IH Ha) as [IH1 IH2].
    cbn [String.append takeWhile dropWhile]. rewrite Hc, IH1, IH2. now split.
Qed.

(** X19.  On a help line made of white space, a word, white space, a
    hyphen and a description without line terminator past its leading
    white space, the word is the one highlighted piece, the indentation
    is the span before it, and the rest is the span after it; a URL in
    the description is not made an anchor. *)
Theorem help_entry_highlights_its_word (indent name gap description : string) :
  allChars isWhiteSpace indent = true ->
  name <> "" -> allChars isWord name = true ->
  allChars isWhiteSpace gap = true ->
  anyChar isLineTerminator (dropWhile isWhiteSpace description) = false ->
  renderContent (indent +:+ name +:+ gap +:+ "-" +:+ description) help
  = [Span indent; Command name; Span (gap +:+ "-" +:+ description)].
Proof.
  intros Hindent Hname Hword Hgap Hdesc.
  set (tail := String "-" description).
  change ("-" +:+ description) with tail.
  assert (Hsep : takeWhile isWord (gap +:+ tail) = "").
  { destruct gap as [| c g]; [reflexivity |].
    cbn [allChars] in Hgap. apply andb_prop in Hgap as [Hc _].
    cbn [String.append takeWhile]. now rewrite (space_not_word _ Hc). }
  assert (Hstart : takeWhile isWhiteSpace (name +:+ gap +:+ tail) = "").
  { destruct name as [| c n]; [now contradiction Hname |].
    cbn [allChars] in Hword. apply andb_prop in Hword as [Hc _].
    cbn [String.append takeWhile]. now rewrite (word_not_space _ Hc). }
  destruct (takeWhile_stop _ _ _ Hindent Hstart) as [H1 H2].
  destruct (takeWhile_stop _ _ _ Hword Hsep) as [H3 H4].
  destruct (takeWhile_stop isWhiteSpace gap tail Hgap eq_refl) as [_ H5].
  unfold renderContent, helpMatch. rewrite H1, H2, H3, H4, H5.
  destruct name as [| c n]; [now contradiction Hname |].
  unfold tail. now rewrite Hdesc.
Qed.

Lemma help_entry_highlights_its_word_witness :
  allChars isWhiteSpace "  " = true
  /\ "blog" <> ""
  /\ allChars isWord "blog" = true
  /\ allChars isWhiteSpace "       " = true
  /\ anyChar isLineTerminator
       (dropWhile isWhiteSpace " Read my blog posts") = false
  /\ renderContent "  blog       - Read my blog posts" help
     = [Span "  "; Command "blog"; Span "       - Read my blog posts"].
Proof.
  assert (H : "blog" <> "") by discriminate.
  repeat (split; [first [reflexivity | exact H] |]).
  exact (help_entry_highlights_its_word "  " "blog" "       "
           " Read my blog posts" eq_refl H eq_refl eq_refl eq_refl).
Defined.

(** ** Help entries of the scrollback *)

Ltac not_help := intros Hhelp; discriminate Hhelp.

Ltac highlighted :=
  first [ not_help
        | intros _; do 3 eexists; split;
          [ vm_compute; reflexivity | vm_compute; tauto ] ].

Lemma dispatch_highlights now command_ s :
  exists lines,
    (history (run (executeCommand now command_) s) = history s ++ lines
     \/ history (run (executeCommand now command_) s) = [])
    /\ Forall highlightsCommand lines.
Proof.
  destruct s as [buffer old page commands index].
  unfold executeCommand.
  set (cmd := normalize command_).
  repeat (match goal with
          | |- context [String.eqb cmd ?name] =>
              destruct (String.eqb_spec cmd name)
          end; try congruence);
    apply_updates;
    try (exists []; split; [now right | constructor]);
    rewrite <- ?List.app_assoc; cbn [app];
    eexists; (split; [left; reflexivity |]);
    repeat (constructor; [highlighted |]); constructor.
Qed.

Lemma step_highlights now e s s' :
  Interaction.step now e s = Some s' ->
  Forall highlightsCommand (history s) ->
  Forall highlightsCommand (history s').
Proof.
  destruct e as [value | key]; cbn [Interaction.step].
  - intros [= <-]. now destruct s.
  - destruct s as [buffer old page commands index].
    destruct key; unfold handleKeyDown;
      cbn [currentInput historyIndex commandHistory history].
    + destruct buffer as [input |]; [| discriminate].
      intros [= <-] Hold.
      destruct (dispatch_highlights now input
                  {| currentInput := Some input; history := old;
                     currentPage := page; commandHistory := commands;
                     historyIndex := index |})
        as (lines & Hh & Hlines).
      cbn [history] in Hh.
      assert (Hnew : Forall highlightsCommand
                (history (run (executeCommand now input)
                   {| currentInput := Some input; history := old;
                      currentPage := page; commandHistory := commands;
                      historyIndex := index |}))).
      { destruct Hh as [-> | ->]; [| constructor].
        apply Forall_app. now split. }
      revert Hnew. unfold run, andThen.
      destruct (executeCommand now input _) as [k [b h pg c i]].
      now cbn.
    + destruct (getMatchingCommands buffer) as [| m [| m' ms]];
        cbn [length Nat.eqb Nat.ltb Nat.leb]; intros [= <-] Hold;
        apply_updates; try exact Hold.
      apply Forall_app. split; [exact Hold |].
      constructor; [not_help | constructor].
    + destruct (0 <? Z.of_nat (length commands)); intros [= <-] Hold;
        apply_updates; exact Hold.
    + destruct (negb (index =? -1)); [destruct (_ =? _) |];
        intros [= <-] Hold; apply_updates; exact Hold.
    + intros [= <-] Hold. exact Hold.
Qed.

(** X20.  Whatever is typed and pressed, every help entry of the
    scrollback stays one whose rendering highlights a command name that
    the terminal accepts: only the help command appends lines of the
    help type, and each of them matches the help pattern with a known
    command as its word. *)
Theorem help_entries_highlight_known_commands clock n events s s' :
  Forall highlightsCommand (history s) ->
  Interaction.steps clock n events s = Some s' ->
  Forall highlightsCommand (history s').
Proof.
  revert n s. induction events as [| e rest IH]; intros n s Hold.
  - now intros [= <-].
  - cbn [Interaction.steps].
    destruct (Interaction.step (clock n) e s) as [s1 |] eqn:E; [| discriminate].
    apply IH. now apply (step_highlights _ _ _ _ E).
Qed.

Lemma help_entries_highlight_known_commands_witness :
  Forall highlightsCommand (history mounted)
  /\ Interaction.steps Interaction.sampleClock 0
       [Interaction.Edit "help"; Interaction.Press Enter;
        Interaction.Edit "nope"; Interaction.Press Enter] mounted
     = Some (run (andThen (executeCommand (Interaction.sampleClock 3) "nope")
                    (setCurrentInput (Some "")))
               (run (andThen (executeCommand (Interaction.sampleClock 1) "help")
                       (setCurrentInput (Some "")))
                  (onChange "help" mounted)))
  /\ Forall highlightsCommand
       (history
          (run (andThen (executeCommand (Interaction.sampleClock 3) "nope")
                  (setCurrentInput (Some "")))
             (run (andThen (executeCommand (Interaction.sampleClock 1) "help")
                     (setCurrentInput (Some "")))
                (onChange "help" mounted)))).
Proof.
  assert (Hold : Forall highlightsCommand (history mounted))
    by (repeat (constructor; [not_help |]); constructor).
  assert (Hrun : Interaction.steps Interaction.sampleClock 0
       [Interaction.Edit "help"; Interaction.Press Enter;
        Interaction.Edit "nope"; Interaction.Press Enter] mounted
     = Some (run (andThen (executeCommand (Interaction.sampleClock 3) "nope")
                    (setCurrentInput (Some "")))
               (run (andThen (executeCommand (Interaction.sampleClock 1) "help")
                       (setCurrentInput (Some "")))
                  (onChange "help" mounted)))) by reflexivity.
  split; [exact Hold |]. split; [exact Hrun |].
  exact (help_entries_highlight_known_commands _ _ _ _ _ Hold Hrun).
Defined.

(** The fifth welcome line, as rendered. *)
Example welcome_link :
  renderContent "GitHub repo: https://github.com/yagizklc/yagizklc.github.io"
    accent
  = [ Span "GitHub repo: ";
      Link "https://github.com/yagizklc/yagizklc.github.io"; Span "" ].
Proof. reflexivity. Qed.

End RenderSpec.
